(** * Career Compass: the matching and scoring engine of [app.py]

    A shallow embedding of the decision logic of [app.py] (catalog
    vocabulary, resume keyword scan, scoring loop, ranking) together with
    the properties its specification states about it.

    Modelling conventions.
    - A Python [str] is a [string]; a character is read as the code point
      of the same number, so the development covers code points below 256.
    - A Python [set] of strings is a [gset string]; a Python [list] is a
      [list].
    - A Python [float] is an exact rational ([Qc]): the rounding of the
      double division is outside the model.  [int] values are [Z] or [nat].
    - A raised exception is [None] in the [option] monad.
    - The script's global [df] is threaded explicitly: [analyze] takes the
      frame before the button press and returns the frame after it. *)

From Stdlib Require Import Ascii QArith Qcanon Lqa.
From stdpp Require Import gmap strings list sorting.

Local Open Scope Qc_scope.

(** ** Python string primitives *)

Module Py.

(** [str.isspace] on one character (code points below 256). *)
Definition isspace (c : ascii) : bool :=
  let n := N_of_ascii c in
  ((9 <=? n) && (n <=? 13) || (28 <=? n) && (n <=? 32)
   || (n =? 133) || (n =? 160))%N.

(** [s.lstrip()] *)
Fixpoint lstrip (s : string) : string :=
  match s with
  | EmptyString => EmptyString
  | String c s' => if isspace c then lstrip s' else s
  end.

(** [s.rstrip()] *)
Fixpoint rstrip (s : string) : string :=
  match s with
  | EmptyString => EmptyString
  | String c s' =>
      match rstrip s' with
      | EmptyString => if isspace c then EmptyString else String c EmptyString
      | r => String c r
      end
  end.

(** [s.strip()] *)
Definition strip (s : string) : string := lstrip (rstrip s).

(** [s.split(sep)] for a one-character separator: always at least one
    piece, empty pieces are kept. *)
Fixpoint split (sep : ascii) (s : string) : list string :=
  match s with
  | EmptyString => [EmptyString]
  | String c s' =>
      if Ascii.eqb c sep then EmptyString :: split sep s'
      else match split sep s' with
           | [] => [String c EmptyString]
           | t :: ts => String c t :: ts
           end
  end.

(** [sep.join(l)] *)
Fixpoint join (sep : string) (l : list string) : string :=
  match l with
  | [] => EmptyString
  | [x] => x
  | x :: rest => x +:+ sep +:+ join sep rest
  end.

(** [s.replace(c, '')] for a one-character [c]: every occurrence goes. *)
Fixpoint remove_char (c : ascii) (s : string) : string :=
  match s with
  | EmptyString => EmptyString
  | String d s' =>
      if Ascii.eqb d c then remove_char c s' else String d (remove_char c s')
  end.

(** [str.lower] on one character (code points below 256): A-Z and the
    Latin-1 capitals 192-222 except the multiplication sign 215. *)
Definition lower_char (c : ascii) : ascii :=
  let n := N_of_ascii c in
  if ((65 <=? n) && (n <=? 90)
      || (192 <=? n) && (n <=? 222) && negb (n =? 215))%N
  then ascii_of_N (n + 32) else c.

(** [s.lower()] *)
Fixpoint lower (s : string) : string :=
  match s with
  | EmptyString => EmptyString
  | String c s' => String (lower_char c) (lower s')
  end.

(** [s.startswith(p)] *)
Fixpoint startswith (p s : string) : bool :=
  match p, s with
  | EmptyString, _ => true
  | String _ _, EmptyString => false
  | String a p', String b s' => Ascii.eqb a b && startswith p' s'
  end.

(** [sub in s] *)
Fixpoint contains (sub s : string) : bool :=
  startswith sub s
  || match s with
     | EmptyString => false
     | String _ s' => contains sub s'
     end.

(** [len(a) / len(b)]: true division of two lengths;
    [ZeroDivisionError] is [None]. *)
Definition truediv (a b : nat) : option Qc :=
  match b with
  | O => None
  | S _ => Some (Qc_of_Z (Z.of_nat a) / Qc_of_Z (Z.of_nat b))
  end.

(** [min(a, b)] and [max(a, b)]: the first argument is kept unless the
    second is strictly smaller (larger). *)
Definition min (a b : Qc) : Qc := if decide (b < a) then b else a.
Definition max (a b : Qc) : Qc := if decide (a < b) then b else a.

End Py.

(** ** Data *)

(** One line of [career_data.csv] as [pd.read_csv] delivers it, with the
    two columns the script splits holding strings.  ([ReadRow] below has
    them as cells, which may be NaN.) *)
Record CsvRow := {
  Job_Title : string;
  Skills : string;
  Interests : string;
  Min_Math : Z;
  Min_Code : Z;
  Personality : string;
  Salary_Range : string;
  Trend_Growth : string
}.

(** The frame [df]: the loaded rows and, once an analysis has run, the
    [Final_Score] column. *)
Record DataFrame := {
  rows : list CsvRow;
  Final_Score : option (list Qc)
}.

(** The body of [load_data()]: the frame as read, without a score
    column.  The [@st.cache_data] around it is [cached_load_data] below. *)
Definition load_data (csv : list CsvRow) : DataFrame :=
  {| rows := csv; Final_Score := None |}.

(** The widget values the scoring loop reads. *)
Record Profile := {
  selected_skills : list string;
  selected_interests : list string;
  math_score : Z;
  code_score : Z;
  personality : string
}.

Definition comma : ascii := ","%char.
Definition dquote : ascii := "034"%char.

(** ** The vocabulary (lines 21-22) *)

(** Line 21: the [Skills] column joined with commas, every double-quote
    character removed, the result split at commas and made a set. *)
Definition raw_skill_set (df : DataFrame) : gset string :=
  list_to_set
    (Py.split comma
       (Py.remove_char dquote (Py.join "," (Skills <$> rows df)))).

(** [sorted([s.strip() for s in all_skills if s.strip()])]: the iteration
    order of the set is immaterial, the result is sorted. *)
Definition all_skills (df : DataFrame) : list string :=
  merge_sort String.le
    (Py.strip <$> filter (λ s, Py.strip s ≠ EmptyString)
                         (elements (raw_skill_set df))).

(** ** The resume keyword scan (lines 43-46) *)

(** The loop appends to [extracted_skills], which starts empty. *)
Fixpoint scan_loop (resume_text_lower : string) (vocabulary : list string)
    (extracted_skills : list string) : list string :=
  match vocabulary with
  | [] => extracted_skills
  | skill :: later =>
      scan_loop resume_text_lower later
        (if Py.contains (Py.lower skill) resume_text_lower
         then extracted_skills ++ [skill] else extracted_skills)
  end.

Definition matchSkills (resume_text : string) (vocabulary : list string)
    : list string :=
  let resume_text_lower := Py.lower resume_text in
  scan_loop resume_text_lower vocabulary [].

(** ** The scoring loop body (lines 96-118) *)

(** [[s.strip() for s in field.split(',')]] *)
Definition tokens (field : string) : list string :=
  Py.strip <$> Py.split comma field.

Definition job_skills (row : CsvRow) : list string := tokens (Skills row).
Definition job_interests (row : CsvRow) : list string := tokens (Interests row).

Definition common_skills (u : Profile) (row : CsvRow) : gset string :=
  list_to_set (selected_skills u) ∩ list_to_set (job_skills row).

Definition common_interests (u : Profile) (row : CsvRow) : gset string :=
  list_to_set (selected_interests u) ∩ list_to_set (job_interests row).

(** A. [(len(common_skills) / len(job_skills)) * 100] *)
Definition skill_match_pct (u : Profile) (row : CsvRow) : option Qc :=
  q ← Py.truediv (size (common_skills u row)) (length (job_skills row));
  Some (q * Qc_of_Z 100).

(** B. [len(common_interests) * 15] *)
Definition interest_bonus (u : Profile) (row : CsvRow) : Z :=
  Z.of_nat (size (common_interests u row)) * 15.

(** D. the two threshold penalties, applied in turn. *)
Definition apply_penalties (u : Profile) (row : CsvRow) (total_score : Qc) : Qc :=
  let total_score :=
    if (math_score u <? Min_Math row)%Z then total_score - Qc_of_Z 10
    else total_score in
  if (code_score u <? Min_Code row)%Z then total_score - Qc_of_Z 10
  else total_score.

(** E. the test guarding the personality bonus. *)
Definition personality_test (u : Profile) (row : CsvRow) : bool :=
  negb (String.eqb (personality u) "Ambivert/Any")
  && String.eqb (personality u) (Personality row).

Definition apply_bonus (u : Profile) (row : CsvRow) (total_score : Qc) : Qc :=
  if personality_test u row then total_score + Qc_of_Z 5 else total_score.

(** [total_score] as it stands after step E. *)
Definition total_score (u : Profile) (row : CsvRow) : option Qc :=
  pct ← skill_match_pct u row;
  Some (apply_bonus u row
          (apply_penalties u row (pct + Qc_of_Z (interest_bonus u row)))).

(** [final_score = max(0, min(100, total_score))] *)
Definition final_score (u : Profile) (row : CsvRow) : option Qc :=
  t ← total_score u row;
  Some (Py.max 0 (Py.min (Qc_of_Z 100) t)).

(** The [for index, row in df.iterrows()] loop: one score per row, in row
    order; an exception in any iteration aborts the loop. *)
Definition final_results (u : Profile) (df : DataFrame) : option (list Qc) :=
  mapM (final_score u) (rows df).

(** [missing] (line 143), computed for a displayed row. *)
Definition missing (u : Profile) (row : CsvRow) : list string :=
  filter (λ s, s ∉ (list_to_set (selected_skills u) : gset string))
         (job_skills row).

(** ** Ranking (lines 120-121) *)

(** A row of a frame that carries the [Final_Score] column. *)
Abbreviation ScoredRow := (CsvRow * Qc)%type.

(** [a] may stand before [b] in a frame sorted by score, descending. *)
Definition score_ge : relation ScoredRow := λ a b, b.2 ≤ a.2.

(** What [sort_values(by=..., ascending=False)] promises with the default
    [kind]: the rows of the frame, rearranged so that scores descend.  The
    default kind is pandas' quicksort, which is not documented to keep
    equal keys in their original order. *)
Definition sort_contract (sort : list ScoredRow → list ScoredRow) : Prop :=
  ∀ l, sort l ≡ₚ l ∧ Sorted score_ge (sort l).

(** Sorts that meet the contract.  The rows are inserted from the last to
    the first; [before_ties] says where a row goes among equal scores:
    in front of them (equal scores stay in frame order) or behind them. *)
Fixpoint insert_desc (before_ties : bool) (x : ScoredRow) (l : list ScoredRow)
    : list ScoredRow :=
  match l with
  | [] => [x]
  | y :: l' =>
      if (if before_ties then bool_decide (x.2 < y.2)
          else bool_decide (x.2 ≤ y.2))
      then y :: insert_desc before_ties x l'
      else x :: l
  end.

Definition sort_desc (before_ties : bool) (l : list ScoredRow) : list ScoredRow :=
  foldr (insert_desc before_ties) [] l.

Definition sort_stable : list ScoredRow → list ScoredRow := sort_desc true.

(** *** The sort that [sort_values] runs *)

(** [sort_values] on one column hands the keys to numpy's [argsort] with
    the default kind.  What follows is numpy's scalar quicksort on an
    index array ([aquicksort]): median-of-three partitioning while a
    range holds more than 16 elements, insertion sort below that.  Builds
    of numpy that dispatch [argsort] to a vectorised sort may leave equal
    keys in another order. *)
Module Numpy.

Section aquicksort.
Context (v : list Qc).

(** [v[i]] and [v[*p]] for a position [p] of the index array [t]. *)
Definition key (i : nat) : Qc := default 0 (v !! i).
Definition at_ (t : list nat) (p : nat) : Qc := key (default O (t !! p)).

(** [INTP_SWAP]: the entries at positions [p] and [q] change places. *)
Definition swap (t : list nat) (p q : nat) : list nat :=
  match t !! p, t !! q with
  | Some a, Some b => <[p := b]> (<[q := a]> t)
  | _, _ => t
  end.

(** [do { ++pi; } while (v[*pi] < vp);] *)
Fixpoint scan_up (fuel : nat) (t : list nat) (vp : Qc) (pi : nat) : nat :=
  match fuel with
  | O => pi
  | S fuel =>
      let pi := S pi in
      if bool_decide (at_ t pi < vp) then scan_up fuel t vp pi else pi
  end.

(** [do { --pj; } while (vp < v[*pj]);] *)
Fixpoint scan_down (fuel : nat) (t : list nat) (vp : Qc) (pj : nat) : nat :=
  match fuel with
  | O => pj
  | S fuel =>
      let pj := pred pj in
      if bool_decide (vp < at_ t pj) then scan_down fuel t vp pj else pj
  end.

(** The [for (;;)] loop of the partition: scan, stop when the positions
    meet, else swap and go on. *)
Fixpoint partition_loop (fuel : nat) (t : list nat) (vp : Qc) (pi pj : nat)
    : list nat * nat :=
  match fuel with
  | O => (t, pi)
  | S fuel =>
      let pi := scan_up (length t) t vp pi in
      let pj := scan_down (length t) t vp pj in
      if bool_decide (pj ≤ pi)%nat then (t, pi)
      else partition_loop fuel (swap t pi pj) vp pi pj
  end.

(** One partition of the range [pl .. pr]; the result is the index array
    and the final position of the pivot. *)
Definition partition (t : list nat) (pl pr : nat) : list nat * nat :=
  let pm := (pl + (pr - pl) / 2)%nat in
  let t := if bool_decide (at_ t pm < at_ t pl) then swap t pm pl else t in
  let t := if bool_decide (at_ t pr < at_ t pm) then swap t pr pm else t in
  let t := if bool_decide (at_ t pm < at_ t pl) then swap t pm pl else t in
  let vp := at_ t pm in
  let pj := (pr - 1)%nat in
  let t := swap t pm pj in
  let '(t, pi) := partition_loop (length t) t vp pl pj in
  (swap t pi (pr - 1), pi).

(** [while (pj > pl && vp < v[*pk]) { *pj-- = *pk--; }] *)
Fixpoint shift_up (fuel : nat) (t : list nat) (vp : Qc) (pl pj : nat)
    : list nat * nat :=
  match fuel with
  | O => (t, pj)
  | S fuel =>
      if bool_decide (pl < pj)%nat && bool_decide (vp < at_ t (pj - 1))
      then shift_up fuel (<[pj := default O (t !! (pj - 1)%nat)]> t) vp pl
                    (pj - 1)
      else (t, pj)
  end.

(** The insertion sort of a small range: [count] elements from [pi] on
    are inserted into the range that starts at [pl]. *)
Fixpoint insertion (count : nat) (t : list nat) (pl pi : nat) : list nat :=
  match count with
  | O => t
  | S count =>
      let vi := default O (t !! pi) in
      let '(t, pj) := shift_up (length t) t (key vi) pl pi in
      insertion count (<[pj := vi]> t) pl (S pi)
  end.

Definition insertion_sort (t : list nat) (pl pr : nat) : list nat :=
  insertion (pr - pl) t pl (S pl).

(** The main loop with its stack of ranges and depths.  [popped] says
    that the range was just taken from the stack (or is the first), which
    is where the depth limit is tested; past the limit numpy switches to
    heap sort, which is outside this model ([None]). *)
Fixpoint loop (fuel : nat) (t : list nat) (pl pr : nat)
    (stack : list (nat * nat * Z)) (cdepth : Z) (popped : bool)
    : option (list nat) :=
  match fuel with
  | O => None
  | S fuel =>
      if popped && (cdepth <? 0)%Z then None
      else if (15 <? pr - pl)%nat then
        let '(t, pi) := partition t pl pr in
        let cdepth := (cdepth - 1)%Z in
        if (pi - pl <? pr - pi)%nat
        then loop fuel t pl (pi - 1) ((S pi, pr, cdepth) :: stack) cdepth false
        else loop fuel t (S pi) pr ((pl, (pi - 1)%nat, cdepth) :: stack) cdepth false
      else
        let t := insertion_sort t pl pr in
        match stack with
        | [] => Some t
        | (pl', pr', cdepth') :: stack => loop fuel t pl' pr' stack cdepth' true
        end
  end.

End aquicksort.

(** [np.argsort(v)]: the positions of [v] in ascending order of key. *)
Definition argsort (v : list Qc) : option (list nat) :=
  let num := length v in
  loop v (2 * num + 2) (seq 0 num) 0 (num - 1) []
       (2 * Z.log2 (Z.of_nat num)) true.

End Numpy.

(** pandas' [nargsort] for [ascending=False]: the keys are reversed,
    sorted ascending, and the result is reversed back. *)
Definition nargsort_descending (items : list Qc) : option (list nat) :=
  order ← Numpy.argsort (reverse items);
  Some (reverse ((λ k, length items - 1 - k)%nat <$> order)).

(** [df.sort_values(by='Final_Score', ascending=False)] on the rows with
    their scores. *)
Definition sort_values_descending (l : list ScoredRow)
    : option (list ScoredRow) :=
  indexer ← nargsort_descending (l.*2);
  mapM (l !!.) indexer.

(** The same as a total function, for [analyze]: where the model of the
    sort stops, the rows are left as they are. *)
Definition pandas_sort (l : list ScoredRow) : list ScoredRow :=
  default l (sort_values_descending l).

(** What the button press shows: the [st.error] banner or the top rows. *)
Inductive Outcome :=
| st_error (msg : string)
| st_success (top_jobs : list ScoredRow).

(** [df['Final_Score'] = final_results]: the column is created or replaced
    on the frame itself.  The list has one entry per row by construction. *)
Definition set_Final_Score (df : DataFrame) (col : list Qc) : DataFrame :=
  {| rows := rows df; Final_Score := Some col |}.

(** The rows of a frame together with a score column. *)
Definition scored_rows (df : DataFrame) (col : list Qc) : list ScoredRow :=
  zip (rows df) col.

(** [.head(3)] *)
Definition head3 {A} (l : list A) : list A := take 3 l.

(** The button handler (lines 89-121).  The result is the frame [df] as the
    handler leaves it, and what is shown; [None] is an uncaught exception. *)
Definition analyze (sort : list ScoredRow → list ScoredRow)
    (df : DataFrame) (u : Profile) : option (DataFrame * Outcome) :=
  match selected_skills u with
  | [] => Some (df, st_error "Please select at least one skill to proceed!")
  | _ :: _ =>
      results ← final_results u df;
      let df := set_Final_Score df results in
      let top_jobs := head3 (sort (scored_rows df results)) in
      Some (df, st_success top_jobs)
  end.

(** ** Script runs and the cache of [load_data] (lines 13-18) *)

(** Streamlit runs the whole script again for every interaction.  Frames
    are objects in the memory of the server process; a variable of the
    script holds a reference to one.  [cached] is the entry that
    [st.cache_data] keeps for [load_data]; it is shared by all runs and
    all sessions. *)
Record Server := {
  objects : gmap nat DataFrame;
  cached : option nat
}.

(** The server before the first run. *)
Definition start : Server := {| objects := ∅; cached := None |}.

(** A new object. *)
Definition alloc (frame : DataFrame) (s : Server) : nat * Server :=
  let l := fresh (dom (objects s)) in
  (l, {| objects := <[l := frame]> (objects s); cached := cached s |}).

(** [df = load_data()] under [@st.cache_data] (lines 13-18).  The first
    call runs the body and the cache keeps a copy of what it returned;
    every later call returns a new copy of the kept frame.  The caller
    never holds a reference to the kept frame itself. *)
Definition cached_load_data (csv : list CsvRow) (s : Server) : nat * Server :=
  match cached s ≫= (objects s !!.) with
  | Some kept => alloc kept s
  | None =>
      let '(df, s1) := alloc (load_data csv) s in
      let '(c, s2) := alloc (load_data csv) s1 in
      (df, {| objects := objects s2; cached := Some c |})
  end.

(** The kept frame, once there is one, is the frame as loaded. *)
Definition cache_intact (csv : list CsvRow) (s : Server) : Prop :=
  ∀ c, cached s = Some c → objects s !! c = Some (load_data csv).

(** One run of the script with the widgets at [u].  The frame is loaded
    into [df]; when the run was triggered by the button, the handler works
    on that object in place.  The result is the server afterwards, the
    reference [df] of this run and what the handler showed. *)
Definition script_run (sort : list ScoredRow → list ScoredRow)
    (csv : list CsvRow) (u : Profile) (pressed : bool) (s : Server)
    : option (Server * nat * option Outcome) :=
  let '(df, s1) := cached_load_data csv s in
  if pressed then
    frame ← objects s1 !! df;
    r ← analyze sort frame u;
    Some ({| objects := <[df := r.1]> (objects s1); cached := cached s1 |},
          df, Some r.2)
  else Some (s1, df, None).

(** A sequence of runs, by any users, on the same server. *)
Fixpoint script_runs (sort : list ScoredRow → list ScoredRow)
    (csv : list CsvRow) (runs : list (Profile * bool)) (s : Server)
    : option Server :=
  match runs with
  | [] => Some s
  | (u, pressed) :: later =>
      r ← script_run sort csv u pressed s;
      script_runs sort csv later r.1.1
  end.

(** ** Closed forms and predicates used in the statements

    [skillMatchPercent] and [score] are the closed forms of what lines
    95-118 compute, over the code's own sets and token list; they are
    proved equal to [skill_match_pct] and [final_score] below.  The
    score as the specification words it, stated without the code's
    definitions, is [Formula.claimed_score] further down. *)

Module Spec.

(** 1 if the condition holds, else 0. *)
Definition indicator (P : Prop) `{Decision P} : Qc := if decide P then 1 else 0.

(** clamp(x, lo, hi) *)
Definition clamp (x lo hi : Qc) : Qc :=
  if decide (x < lo) then lo else if decide (hi < x) then hi else x.

(** The condition under which the specification grants the personality
    bonus: the job's preference is not the generic one and the user's
    personality equals it. *)
Definition personality_bonus_condition (u : Profile) (row : CsvRow) : Prop :=
  Personality row ≠ "Ambivert/Any" ∧ personality u = Personality row.

(** Line 99 in closed form: the size of the intersection over the length
    of the token list (a token listed twice counts twice in the divisor),
    times 100. *)
Definition skillMatchPercent (u : Profile) (row : CsvRow) : Qc :=
  Qc_of_Z (Z.of_nat (size (common_skills u row)))
  / Qc_of_Z (Z.of_nat (length (job_skills row))) * Qc_of_Z 100.

(** Lines 99-118 in closed form. *)
Definition score (u : Profile) (row : CsvRow) : Qc :=
  clamp (skillMatchPercent u row
         + Qc_of_Z 15 * Qc_of_Z (Z.of_nat (size (common_interests u row)))
         - Qc_of_Z 10 * indicator (math_score u < Min_Math row)%Z
         - Qc_of_Z 10 * indicator (code_score u < Min_Code row)%Z
         + Qc_of_Z 5 * indicator (personality_bonus_condition u row))
        0 (Qc_of_Z 100).

(** [sub] occurs somewhere inside [s]. *)
Definition occurs_in (sub s : string) : Prop :=
  ∃ pre post, s = pre +:+ sub +:+ post.

(** Rows with equal scores stand in [l'] in the order they have in [l]. *)
Definition preserves_ties (l l' : list ScoredRow) : Prop :=
  ∀ v : Qc, filter (λ r, r.2 = v) l' = filter (λ r, r.2 = v) l.


(** A token is clean: no surrounding whitespace, no quote character. *)
Definition clean (s : string) : Prop :=
  Py.strip s = s ∧ dquote ∉ String.list_ascii_of_string s.

End Spec.

(** ** The score as the specification states it *)

Module Formula.







End Formula.

(** ** The frame as [pd.read_csv] delivers it *)




(** Lines 21-22 as a function of the [Skills] column. *)
Definition vocabulary (column : list string) : list string :=
  merge_sort String.le
    (Py.strip <$> filter (λ s, Py.strip s ≠ EmptyString)
       (elements (list_to_set
                    (Py.split comma
                       (Py.remove_char dquote (Py.join "," column)))
                  : gset string))).









(** ** Matching without regard to case, stated without [lower] *)

Module Nocase.

(** A capital letter among the code points below 256: A-Z, and the
    Latin-1 capitals from 192 to 222 without the multiplication sign. *)
Definition is_capital (c : ascii) : bool :=
  let n := N_of_ascii c in
  ((65 <=? n) && (n <=? 90)
   || (192 <=? n) && (n <=? 222) && negb (n =? 215))%N.

(** The same letter up to case: the same character, or a capital and its
    small form, which stands 32 code points above it. *)
Definition same_char (c d : ascii) : Prop :=
  c = d
  ∨ (is_capital c = true ∧ N_of_ascii d = (N_of_ascii c + 32)%N)
  ∨ (is_capital d = true ∧ N_of_ascii c = (N_of_ascii d + 32)%N).

(** The same text up to case, letter by letter. *)
Fixpoint same_text (s t : string) : Prop :=
  match s, t with
  | EmptyString, EmptyString => True
  | String c s', String d t' => same_char c d ∧ same_text s' t'
  | _, _ => False
  end.

(** Some stretch of [text] is [term] up to case. *)
Definition occurs (term text : string) : Prop :=
  ∃ pre mid post, text = pre +:+ mid +:+ post ∧ same_text term mid.

End Nocase.

(** All characters, in code point order. *)
Definition all_ascii : list ascii := ascii_of_nat <$> seq 0 256.


(** ** Worked catalog entries *)

Definition example_job (title skills : string) : CsvRow :=
  {| Job_Title := title; Skills := skills; Interests := "Data";
     Min_Math := 50; Min_Code := 50; Personality := "Introvert";
     Salary_Range := "6-10 LPA"; Trend_Growth := "High" |}.

Definition job_A : CsvRow := example_job "Job A" "Python,SQL".
Definition job_B : CsvRow := example_job "Job B" "Python,SQL".

Definition example_user : Profile :=
  {| selected_skills := ["Python"]; selected_interests := ["Data"];
     math_score := 60; code_score := 60; personality := "Introvert" |}.

Definition tie_catalog : DataFrame := load_data [job_A; job_B].

(** The user of the worked example with a math score below the minimum. *)
Definition low_math_user : Profile :=
  {| selected_skills := ["Python"]; selected_interests := ["Data"];
     math_score := 40; code_score := 60; personality := "Introvert" |}.


(** A job the example user has no skill for, and a catalog in which the
    better match comes second. *)
Definition job_C : CsvRow := example_job "Job C" "SQL".
Definition mixed_catalog : DataFrame := load_data [job_C; job_A].




(** Four jobs with four different scores for the example user
    (20, 70, 100 and 45), the best one third in the catalog. *)
Definition job_D : CsvRow := example_job "Job D" "Python".
Definition job_E : CsvRow := example_job "Job E" "Python,SQL,Go,Rust".
Definition four_catalog : DataFrame := load_data [job_C; job_A; job_D; job_E].

(** A token wrapped in double-quote characters, as a cell may hold it. *)
Definition quoted (s : string) : string :=
  String dquote (s +:+ String dquote EmptyString).

Definition quoted_job : CsvRow := example_job "Job Q" (quoted "Python" +:+ ",SQL").

(** ** The resume text (lines 38-40) *)

(** [resume_text] starts empty and every page's text is appended to it;
    the text of a page is what [extract_text] returned for it. *)
Definition resume_text (pages : list string) : string :=
  foldl (λ text page, text +:+ page) EmptyString pages.

(** [extracted_skills] after the scan over [all_skills] (lines 33-46). *)
Definition extracted_skills (df : DataFrame) (pages : list string) : list string :=
  matchSkills (resume_text pages) (all_skills df).

(** ** The result cards (lines 127-148) *)

(** Lines 132-134: the colour of the match figure. *)
Definition color (match_val : Qc) : string :=
  if decide (Qc_of_Z 80 < match_val) then "green"
  else if decide (Qc_of_Z 50 < match_val) then "orange"
  else "red".

(** [int(x)] on a float: the fraction is cut off, towards zero. *)
Definition py_int (x : Qc) : Z := (Qnum x ÷ Zpos (Qden x))%Z.

(** [min(a, b)] on two [int]s. *)
Definition py_min_int (a b : Z) : Z := if decide (b < a)%Z then b else a.

(** Line 137: the argument handed to [st.progress]. *)
Definition progress_value (match_val : Qc) : Z :=
  py_min_int 100 (py_int match_val).

(** Lines 145-148: the warning is shown when [missing] is non-empty, the
    success note otherwise. *)
Definition shows_core_skills_note (u : Profile) (row : CsvRow) : bool :=
  match missing u row with
  | [] => true
  | _ :: _ => false
  end.

(** ** The demand chart (lines 159-165) *)

(** Line 163 *)
Definition base_growth (row : CsvRow) : Z :=
  if String.eqb (Trend_Growth row) "Stable" then 5
  else if String.eqb (Trend_Growth row) "High" then 10
  else 15.

(** Line 164: one value per year; [randint i] is what
    [np.random.randint(-2, 2)] returned in iteration [i]. *)
Definition growth (row : CsvRow) (randint : nat → Z) : list Z :=
  (λ i, 100 + base_growth row * Z.of_nat i + randint i)%Z <$> seq 0 5.

(** ** Changing the selection *)

(** The profile after further entries are picked in the skills widget. *)
Definition select_more_skills (more : list string) (u : Profile) : Profile :=
  {| selected_skills := selected_skills u ++ more;
     selected_interests := selected_interests u;
     math_score := math_score u; code_score := code_score u;
     personality := personality u |}.

(** The profile after further entries are picked in the interests widget. *)
Definition select_more_interests (more : list string) (u : Profile) : Profile :=
  {| selected_skills := selected_skills u;
     selected_interests := selected_interests u ++ more;
     math_score := math_score u; code_score := code_score u;
     personality := personality u |}.

(** The profile after the two sliders are moved. *)
Definition set_scores (math code : Z) (u : Profile) : Profile :=
  {| selected_skills := selected_skills u;
     selected_interests := selected_interests u;
     math_score := math; code_score := code;
     personality := personality u |}.

(** * Properties *)

(** ** Facts about the string primitives *)

Section py_facts.
Implicit Types (s t p sub : string) (c : ascii).

Lemma append_cons c s t : String c s +:+ t = String c (s +:+ t).
Proof. reflexivity. Qed.

Lemma ascii_eqb_true c d : Ascii.eqb c d = true ↔ c = d.
Proof. apply Ascii.eqb_eq. Qed.

Lemma split_not_nil c s : Py.split c s ≠ [].
Proof.
  destruct s as [|d s]; simpl; [done|].
  destruct (Ascii.eqb d c); [done|].
  by destruct (Py.split c s).
Qed.

Lemma split_length_pos c s : (0 < length (Py.split c s))%nat.
Proof.
  pose proof (split_not_nil c s) as Hne.
  destruct (Py.split c s); [done | simpl; lia].
Qed.

Lemma startswith_spec p s :
  Py.startswith p s = true ↔ ∃ post, s = p +:+ post.
Proof.
  revert s. induction p as [|a p IH]; intros s; simpl.
  - split; [intros _; by exists s | done].
  - destruct s as [|b s].
    + split; [done | intros [post Hpost]; by rewrite append_cons in Hpost].
    + rewrite andb_true_iff, ascii_eqb_true, IH. split.
      * intros [-> [post ->]]. by exists post.
      * intros [post Hpost]. rewrite append_cons in Hpost.
        injection Hpost as -> ->. eauto.
Qed.

Lemma contains_spec sub s :
  Py.contains sub s = true ↔ Spec.occurs_in sub s.
Proof.
  unfold Spec.occurs_in. induction s as [|c s IH].
  - simpl. rewrite orb_false_r, startswith_spec. split.
    + intros [post Hpost]. by exists EmptyString, post.
    + intros ([|? ?] & post & Hpost); [by exists post | done].
  - change (Py.contains sub (String c s))
      with (Py.startswith sub (String c s) || Py.contains sub s).
    rewrite orb_true_iff, startswith_spec, IH. split.
    + intros [[post Hpost] | (pre & post & ->)].
      * by exists EmptyString, post.
      * by exists (String c pre), post.
    + intros ([|d pre] & post & Hpost).
      * left. by exists post.
      * right. rewrite append_cons in Hpost. injection Hpost as -> ->. eauto.
Qed.

End py_facts.

(** ** Arithmetic on scores *)

Lemma Qc_of_Z_mul (a b : Z) : Qc_of_Z (a * b) = Qc_of_Z a * Qc_of_Z b.
Proof.
  apply Qc_is_canon. simpl. rewrite Qred_correct.
  unfold Qeq. simpl. lia.
Qed.

Lemma Qc_of_Z_0 : Qc_of_Z 0 = 0.
Proof. by apply Qc_is_canon. Qed.


Lemma Qc_0_le_100 : 0 ≤ Qc_of_Z 100.
Proof. by compute. Qed.

(** Order goals on [Qc] are decided on the underlying fractions. *)
Ltac qc_order :=
  try (exfalso; unfold Qclt, Qcle in *; simpl in *; lra);
  try apply Qc_is_canon; unfold Qclt, Qcle in *; simpl in *; lra.

Lemma py_clamp (t : Qc) :
  Py.max 0 (Py.min (Qc_of_Z 100) t) = Spec.clamp t 0 (Qc_of_Z 100).
Proof.
  unfold Py.max, Py.min, Spec.clamp.
  repeat case_decide; try done; qc_order.
Qed.

Lemma clamp_bounds (t lo hi : Qc) :
  lo ≤ hi → lo ≤ Spec.clamp t lo hi ≤ hi.
Proof.
  intros Hlh. unfold Spec.clamp.
  repeat case_decide; split; try done; by apply Qcle_ngt.
Qed.

(** ** The scoring loop body *)

Section scoring.
Context (u : Profile) (row : CsvRow).

Lemma tokens_length_pos (field : string) : (0 < length (tokens field))%nat.
Proof. unfold tokens. rewrite length_fmap. apply split_length_pos. Qed.

Lemma skill_match_pct_spec :
  skill_match_pct u row = Some (Spec.skillMatchPercent u row).
Proof.
  unfold skill_match_pct, Spec.skillMatchPercent, Py.truediv.
  pose proof (tokens_length_pos (Skills row)) as Hpos.
  fold (job_skills row) in Hpos.
  destruct (length (job_skills row)) as [|n] eqn:Hlen; [lia|]. done.
Qed.

(** The divisor counts the listed tokens; it is the number of distinct
    required skills whenever the row lists no token twice. *)
Lemma job_skills_length_NoDup :
  NoDup (job_skills row) →
  length (job_skills row) = size (list_to_set (job_skills row) : gset string).
Proof. intros Hnodup. by rewrite size_list_to_set. Qed.

Lemma personality_test_spec :
  personality_test u row = true ↔ Spec.personality_bonus_condition u row.
Proof.
  unfold personality_test, Spec.personality_bonus_condition.
  rewrite andb_true_iff, negb_true_iff, String.eqb_neq, String.eqb_eq.
  split; intros [Hne Heq]; split; congruence.
Qed.

Lemma apply_bonus_spec (t : Qc) :
  apply_bonus u row t
  = t + Qc_of_Z 5 * Spec.indicator (Spec.personality_bonus_condition u row).
Proof.
  unfold apply_bonus, Spec.indicator.
  pose proof personality_test_spec as Htest.
  destruct (personality_test u row); case_decide; try ring.
  - exfalso. tauto.
  - exfalso. destruct Htest as [_ Htest]. by specialize (Htest ltac:(done)).
Qed.

Lemma apply_penalties_spec (t : Qc) :
  apply_penalties u row t
  = t - Qc_of_Z 10 * Spec.indicator (math_score u < Min_Math row)%Z
      - Qc_of_Z 10 * Spec.indicator (code_score u < Min_Code row)%Z.
Proof.
  unfold apply_penalties, Spec.indicator.
  destruct (Z.ltb_spec (math_score u) (Min_Math row));
    destruct (Z.ltb_spec (code_score u) (Min_Code row));
    repeat case_decide; try lia; ring.
Qed.

Lemma total_score_spec :
  total_score u row
  = Some (Spec.skillMatchPercent u row
          + Qc_of_Z 15 * Qc_of_Z (Z.of_nat (size (common_interests u row)))
          - Qc_of_Z 10 * Spec.indicator (math_score u < Min_Math row)%Z
          - Qc_of_Z 10 * Spec.indicator (code_score u < Min_Code row)%Z
          + Qc_of_Z 5 * Spec.indicator (Spec.personality_bonus_condition u row)).
Proof.
  unfold total_score. rewrite skill_match_pct_spec. simpl. f_equal.
  rewrite apply_bonus_spec, apply_penalties_spec.
  unfold interest_bonus. rewrite Qc_of_Z_mul. ring.
Qed.

Lemma final_score_spec : final_score u row = Some (Spec.score u row).
Proof.
  unfold final_score. rewrite total_score_spec.
  cbn [mbind option_bind]. rewrite py_clamp. unfold Spec.score.
  reflexivity.
Qed.


End scoring.







(** C6. The bonus of 5 is added exactly when the job's preferred
    personality is not Ambivert/Any and the user's personality equals it;
    a user whose personality is Ambivert/Any never gets it. *)
Theorem personality_bonus_exact (u : Profile) (row : CsvRow) (t : Qc) :
  (personality_test u row = true ↔ Spec.personality_bonus_condition u row)
  ∧ apply_bonus u row t
    = (if decide (Personality row ≠ "Ambivert/Any"
                  ∧ personality u = Personality row)
       then t + Qc_of_Z 5 else t)
  ∧ apply_bonus
      {| selected_skills := selected_skills u;
         selected_interests := selected_interests u;
         math_score := math_score u; code_score := code_score u;
         personality := "Ambivert/Any" |} row t = t.
Proof.
  split; [apply personality_test_spec|]. split.
  - rewrite apply_bonus_spec. unfold Spec.indicator, Spec.personality_bonus_condition.
    case_decide; ring.
  - done.
Qed.


Lemma all_skills_vocabulary (df : DataFrame) :
  all_skills df = vocabulary (Skills <$> rows df).
Proof. reflexivity. Qed.




(** C7. The matched and the missing skills of a job partition its
    required skills, and the missing skills are the required skills in
    their listed order without those the user selected. *)
Theorem matched_missing_partition (u : Profile) (row : CsvRow) :
  common_skills u row ∪ list_to_set (missing u row)
    = list_to_set (job_skills row)
  ∧ common_skills u row ## list_to_set (missing u row)
  ∧ missing u row = filter (λ s, s ∉ selected_skills u) (job_skills row).
Proof.
  unfold common_skills, missing. split; [|split].
  - apply set_eq. intros s.
    rewrite elem_of_union, elem_of_intersection, !elem_of_list_to_set,
      list_elem_of_filter, elem_of_list_to_set.
    destruct (decide (s ∈ selected_skills u)); tauto.
  - apply elem_of_disjoint. intros s.
    rewrite elem_of_intersection, !elem_of_list_to_set,
      list_elem_of_filter, elem_of_list_to_set.
    tauto.
  - apply list_filter_iff. intros s. by rewrite elem_of_list_to_set.
Qed.

(** ** The resume keyword scan *)

Lemma scan_loop_filter (text : string) (vocabulary acc : list string) :
  scan_loop text vocabulary acc
  = acc ++ filter (λ term, Py.contains (Py.lower term) text = true) vocabulary.
Proof.
  revert acc. induction vocabulary as [|skill later IH]; intros acc; simpl.
  - by rewrite app_nil_r.
  - rewrite IH, filter_cons.
    destruct (Py.contains (Py.lower skill) text); case_decide; try done.
    by rewrite <-app_assoc.
Qed.


(** ** The button handler *)

(** C4. With no skill selected the request is turned down with the error
    banner before any scoring: no score list is computed, the frame is
    left as it was, and no result list is shown. *)
Theorem analyze_empty_selection (sort : list ScoredRow → list ScoredRow)
    (df : DataFrame) (u : Profile) :
  selected_skills u = [] →
  analyze sort df u
  = Some (df, st_error "Please select at least one skill to proceed!").
Proof. intros Hsel. unfold analyze. by rewrite Hsel. Qed.

Lemma analyze_empty_selection_witness :
  analyze sort_stable (load_data [])
    {| selected_skills := []; selected_interests := ["AI"; "Data"];
       math_score := 75; code_score := 70; personality := "Introvert" |}
  = Some (load_data [],
          st_error "Please select at least one skill to proceed!").
Proof. by apply analyze_empty_selection. Defined.

Lemma final_results_spec (u : Profile) (df : DataFrame) :
  final_results u df = Some (Spec.score u <$> rows df).
Proof.
  unfold final_results. apply mapM_Some_2.
  induction (rows df) as [|row l IH]; constructor; [|done].
  apply final_score_spec.
Qed.

Lemma analyze_nonempty_selection (sort : list ScoredRow → list ScoredRow)
    (df : DataFrame) (u : Profile) :
  selected_skills u ≠ [] →
  let scores := Spec.score u <$> rows df in
  analyze sort df u
  = Some (set_Final_Score df scores,
          st_success (head3 (sort (scored_rows df scores)))).
Proof.
  intros Hsel scores. unfold analyze.
  destruct (selected_skills u); [done|].
  by rewrite final_results_spec.
Qed.


(** ** Sorting by score *)

Section sorting.
Implicit Types (x y : ScoredRow) (l : list ScoredRow) (b : bool).

Lemma insert_desc_perm b x l : insert_desc b x l ≡ₚ x :: l.
Proof.
  induction l as [|y l IH]; simpl; [done|].
  destruct (if b then _ else _); [|done].
  rewrite IH. apply Permutation_swap.
Qed.

Lemma insert_desc_passes b x y :
  (if b then bool_decide (x.2 < y.2) else bool_decide (x.2 ≤ y.2)) = true →
  score_ge y x.
Proof.
  unfold score_ge. destruct b; intros H%bool_decide_eq_true; [|done].
  by apply Qclt_le_weak.
Qed.

Lemma insert_desc_stops b x y :
  (if b then bool_decide (x.2 < y.2) else bool_decide (x.2 ≤ y.2)) = false →
  score_ge x y.
Proof.
  unfold score_ge. destruct b; intros H%bool_decide_eq_false.
  - by apply Qcle_ngt.
  - by apply Qclt_le_weak, Qclt_nge.
Qed.

Lemma insert_desc_HdRel b x y l :
  score_ge y x → HdRel score_ge y l → HdRel score_ge y (insert_desc b x l).
Proof.
  intros Hyx Hhd. destruct l as [|z l]; simpl; [by constructor|].
  destruct (if b then _ else _); constructor; [|done].
  by inversion Hhd.
Qed.

Lemma insert_desc_sorted b x l :
  Sorted score_ge l → Sorted score_ge (insert_desc b x l).
Proof.
  induction 1 as [|y l Hsorted IH Hhd]; simpl.
  - by repeat constructor.
  - destruct (if b then _ else _) eqn:Htest.
    + constructor; [done|].
      apply insert_desc_HdRel; [|done]. by eapply insert_desc_passes.
    + constructor; [by constructor|].
      constructor. by eapply insert_desc_stops.
Qed.

Lemma sort_desc_contract b : sort_contract (sort_desc b).
Proof.
  intros l. unfold sort_desc. induction l as [|x l [IHperm IHsorted]]; simpl.
  - split; [done | constructor].
  - split.
    + by rewrite insert_desc_perm, IHperm.
    + by apply insert_desc_sorted.
Qed.

Lemma insert_before_ties_filter (v : Qc) x l :
  filter (λ r : ScoredRow, r.2 = v) (insert_desc true x l)
  = filter (λ r : ScoredRow, r.2 = v) (x :: l).
Proof.
  induction l as [|y l IH]; simpl; [done|].
  case_bool_decide as Hlt; [|done].
  rewrite (filter_cons _ y), IH, !filter_cons.
  repeat case_decide; try done.
  exfalso. apply (irreflexivity Qclt v). congruence.
Qed.

(** The first of the two sorts keeps rows of equal score in frame order. *)
Lemma sort_stable_preserves_ties l : Spec.preserves_ties l (sort_stable l).
Proof.
  intros v. unfold sort_stable, sort_desc.
  induction l as [|x l IH]; simpl; [done|].
  by rewrite insert_before_ties_filter, !filter_cons, IH.
Qed.

End sorting.

(** ** Worked catalog entries *)

Lemma example_score (title : string) :
  Spec.score example_user (example_job title "Python,SQL") = Qc_of_Z 70.
Proof. apply Qc_is_canon. by vm_compute. Qed.

Example example_score_low_math :
  final_score
    {| selected_skills := ["Python"]; selected_interests := ["Data"];
       math_score := 40; code_score := 60; personality := "Introvert" |}
    job_A = Some (Qc_of_Z 60)
  ∧ missing example_user job_A = ["SQL"].
Proof.
  split; [|reflexivity]. rewrite final_score_spec. f_equal.
  apply Qc_is_canon. by vm_compute.
Qed.

(** ** Ranking *)





(** The ranking of the four-job catalog: 100, 70 and 45 are returned in
    that order, the job scoring 20 is left out. *)
Example four_catalog_ranking :
  (λ r, (λ a : ScoredRow, Job_Title a.1) <$> match r.2 with
                                       | st_success top_jobs => top_jobs
                                       | st_error _ => []
                                       end)
    <$> analyze sort_stable four_catalog example_user
  = Some ["Job D"; "Job A"; "Job E"].
Proof. by vm_compute. Qed.







(** The same ranking under the sort of [sort_values]. *)
Example four_catalog_ranking_pandas :
  (λ r, (λ a : ScoredRow, Job_Title a.1) <$> match r.2 with
                                       | st_success top_jobs => top_jobs
                                       | st_error _ => []
                                       end)
    <$> analyze pandas_sort four_catalog example_user
  = Some ["Job D"; "Job A"; "Job E"].
Proof. by vm_compute. Qed.

(** The two-job catalog lists the weaker match first; the stronger one is
    returned first, and both are returned. *)
Example mixed_catalog_ranking :
  (λ r, (λ a : ScoredRow, Job_Title a.1) <$> match r.2 with
                                       | st_success top_jobs => top_jobs
                                       | st_error _ => []
                                       end)
    <$> analyze sort_stable mixed_catalog example_user
  = Some ["Job A"; "Job C"].
Proof. by vm_compute. Qed.

(** ** The shared catalog across script runs *)

Section server.
Context (sort : list ScoredRow → list ScoredRow) (csv : list CsvRow).

Local Abbreviation cache_intact := (cache_intact csv).

Lemma alloc_spec (frame : DataFrame) (s : Server) :
  ∃ l, alloc frame s = (l, {| objects := <[l := frame]> (objects s);
                              cached := cached s |})
       ∧ objects s !! l = None.
Proof.
  exists (fresh (dom (objects s))). split; [done|].
  apply not_elem_of_dom, is_fresh.
Qed.

Lemma cached_load_data_spec (s : Server) :
  cache_intact s →
  ∃ df c s1,
    cached_load_data csv s = (df, s1)
    ∧ cached s1 = Some c
    ∧ df ≠ c
    ∧ objects s1 !! c = Some (load_data csv)
    ∧ objects s1 !! df = Some (load_data csv).
Proof.
  intros Hintact. unfold cached_load_data.
  destruct (cached s) as [c|] eqn:Hc; cbn [mbind option_bind].
  - rewrite (Hintact c Hc).
    destruct (alloc_spec (load_data csv) s) as (l & -> & Hfresh).
    exists l, c, {| objects := <[l := load_data csv]> (objects s);
                    cached := cached s |}.
    assert (l ≠ c) as Hne.
    { intros ->. rewrite (Hintact c Hc) in Hfresh. done. }
    simpl. split; [done|]. split; [done|]. split; [done|].
    split; [by rewrite lookup_insert_ne, (Hintact c Hc) | by rewrite lookup_insert_eq].
  - destruct (alloc_spec (load_data csv) s) as (l & -> & Hfresh).
    destruct (alloc_spec (load_data csv)
                {| objects := <[l := load_data csv]> (objects s);
                   cached := cached s |}) as (c & -> & Hfresh').
    simpl in Hfresh'. exists l, c. eexists. split; [done|]. simpl.
    assert (l ≠ c) as Hne.
    { intros ->. by rewrite lookup_insert_eq in Hfresh'. }
    split; [done|]. split; [done|].
    split; [by rewrite lookup_insert_eq|].
    by rewrite lookup_insert_ne, lookup_insert_eq.
Qed.

Lemma analyze_returns (df : DataFrame) (u : Profile) :
  is_Some (analyze sort df u).
Proof.
  destruct (selected_skills u) as [|t sel] eqn:Hsel.
  - unfold analyze. rewrite Hsel. eauto.
  - rewrite analyze_nonempty_selection by (by rewrite Hsel). eauto.
Qed.

Lemma analyze_keeps_rows (df : DataFrame) (u : Profile) :
  (λ r, rows r.1) <$> analyze sort df u = Some (rows df).
Proof.
  destruct (selected_skills u) as [|t sel] eqn:Hsel.
  - unfold analyze. by rewrite Hsel.
  - by rewrite analyze_nonempty_selection by (by rewrite Hsel).
Qed.

Lemma script_run_spec (u : Profile) (pressed : bool) (s : Server) :
  cache_intact s →
  ∃ s' df c,
    script_run sort csv u pressed s
      = Some (s', df,
              if pressed then snd <$> analyze sort (load_data csv) u else None)
    ∧ cache_intact s'
    ∧ cached s' = Some c
    ∧ df ≠ c
    ∧ objects s' !! c = Some (load_data csv)
    ∧ objects s' !! df
      = (if pressed then fst <$> analyze sort (load_data csv) u
         else Some (load_data csv)).
Proof.
  intros Hintact.
  destruct (cached_load_data_spec s Hintact)
    as (df & c & s1 & Hload & Hc & Hne & Hkept & Hdf).
  unfold script_run. rewrite Hload. destruct pressed.
  - rewrite Hdf. simpl.
    destruct (analyze_returns (load_data csv) u) as [[frame shown] Han].
    rewrite Han. simpl.
    eexists _, df, c. split; [done|]. cbn [objects cached fst snd fmap option_fmap option_map].
    split.
    { intros c' Hc'. cbn [objects cached] in *. rewrite Hc in Hc'.
      injection Hc' as <-. by rewrite lookup_insert_ne. }
    split; [done|]. split; [done|].
    split; [by rewrite lookup_insert_ne | by rewrite lookup_insert_eq].
  - exists s1, df, c. split; [done|].
    split.
    { intros c' Hc'. rewrite Hc in Hc'. by injection Hc' as <-. }
    done.
Qed.

Lemma script_runs_spec (runs : list (Profile * bool)) (s : Server) :
  cache_intact s →
  ∃ s', script_runs sort csv runs s = Some s' ∧ cache_intact s'.
Proof.
  revert s. induction runs as [|[u pressed] later IH]; intros s Hintact; simpl.
  - by exists s.
  - destruct (script_run_spec u pressed s Hintact)
      as (s1 & df & c & -> & Hintact1 & _).
    simpl. by apply IH.
Qed.

Lemma start_intact : cache_intact start.
Proof. by intros c. Qed.

End server.

(** C3. After any number of script runs, by any users, the next run
    finds the shared catalog exactly as [load_data] produced it and
    leaves it so: the kept frame has the loaded rows and no score column.
    The scores of a request are written onto the frame object of that
    run, which is another object than the kept one and keeps the loaded
    rows as well. *)
Theorem shared_catalog_never_mutated (sort : list ScoredRow → list ScoredRow)
    (csv : list CsvRow) (earlier : list (Profile * bool))
    (u : Profile) (pressed : bool) :
  ∃ s s' df shown c,
    script_runs sort csv earlier start = Some s
    ∧ script_run sort csv u pressed s = Some (s', df, shown)
    ∧ cached s' = Some c
    ∧ objects s' !! c = Some (load_data csv)
    ∧ df ≠ c
    ∧ objects s' !! df
      = (if pressed then fst <$> analyze sort (load_data csv) u
         else Some (load_data csv))
    ∧ rows <$> objects s' !! df = Some csv.
Proof.
  destruct (script_runs_spec sort csv earlier start (start_intact csv))
    as (s & Hruns & Hintact).
  destruct (script_run_spec sort csv u pressed s Hintact)
    as (s' & df & c & Hrun & _ & Hc & Hne & Hkept & Hdf).
  exists s, s', df,
    (if pressed then snd <$> analyze sort (load_data csv) u else None), c.
  do 6 (split; [done|]). rewrite Hdf. destruct pressed; [|done].
  pose proof (analyze_keeps_rows sort (load_data csv) u) as Hrows.
  by destruct (analyze sort (load_data csv) u).
Qed.

(** A press on the one-job catalog after two earlier presses: the run's
    own frame carries the score column, the kept frame does not. *)
Example press_writes_own_frame :
  ∃ s s' df shown c,
    script_runs sort_stable [job_A]
      [(example_user, true); (low_math_user, true)] start = Some s
    ∧ script_run sort_stable [job_A] example_user true s = Some (s', df, shown)
    ∧ cached s' = Some c
    ∧ Final_Score <$> objects s' !! c = Some None
    ∧ Final_Score <$> objects s' !! df = Some (Some [Qc_of_Z 70]).
Proof.
  destruct (script_runs_spec sort_stable [job_A]
              [(example_user, true); (low_math_user, true)] start
              (start_intact [job_A]))
    as (s & Hruns & Hintact).
  destruct (script_run_spec sort_stable [job_A] example_user true s Hintact)
    as (s' & df & c & Hrun & _ & Hc & _ & Hkept & Hdf).
  exists s, s', df, (snd <$> analyze sort_stable (load_data [job_A]) example_user), c.
  split; [done|]. split; [done|]. split; [done|].
  rewrite Hkept, Hdf. split; [done|].
  rewrite analyze_nonempty_selection by done. simpl.
  unfold load_data, job_A. cbn [rows fmap list_fmap].
  by rewrite !example_score.
Qed.

(** ** Tokens: the vocabulary path and the scoring path *)

Section token_facts.
Implicit Types (s t : string) (c d : ascii).

Local Abbreviation chars := String.list_ascii_of_string.

Lemma chars_remove_char c s : c ∉ chars (Py.remove_char c s).
Proof.
  induction s as [|d s IH]; simpl; [apply not_elem_of_nil|].
  destruct (Ascii.eqb d c) eqn:Hd; [done|]. simpl.
  apply not_elem_of_cons. split; [|done].
  intros ->. by rewrite Ascii.eqb_refl in Hd.
Qed.

Lemma chars_split sep s t : t ∈ Py.split sep s → chars t ⊆ chars s.
Proof.
  revert t. induction s as [|d s IH]; intros t; simpl.
  - intros ->%list_elem_of_singleton. done.
  - destruct (Ascii.eqb d sep).
    + intros [->|Ht]%elem_of_cons.
      * apply list_subseteq_nil.
      * by apply list_subseteq_cons, IH.
    + destruct (Py.split sep s) as [|t0 ts].
      * intros ->%list_elem_of_singleton. simpl.
        apply list_subseteq_skip, list_subseteq_nil.
      * intros [->|Ht]%elem_of_cons; simpl.
        -- apply list_subseteq_skip, IH. left.
        -- apply list_subseteq_cons, IH. by right.
Qed.

Lemma chars_lstrip s : chars (Py.lstrip s) ⊆ chars s.
Proof.
  induction s as [|c s IH]; simpl; [done|].
  destruct (Py.isspace c); [by apply list_subseteq_cons | done].
Qed.

Lemma chars_rstrip s : chars (Py.rstrip s) ⊆ chars s.
Proof.
  induction s as [|c s IH]; simpl; [done|].
  destruct (Py.rstrip s) as [|d r].
  - destruct (Py.isspace c); [apply list_subseteq_nil|].
    apply list_subseteq_skip, list_subseteq_nil.
  - by apply list_subseteq_skip.
Qed.

Lemma chars_strip s : chars (Py.strip s) ⊆ chars s.
Proof. unfold Py.strip. etrans; [apply chars_lstrip | apply chars_rstrip]. Qed.

Lemma lstrip_idemp s : Py.lstrip (Py.lstrip s) = Py.lstrip s.
Proof.
  induction s as [|c s IH]; simpl; [done|].
  destruct (Py.isspace c) eqn:Hc; [done|]. simpl. by rewrite Hc.
Qed.

Lemma rstrip_idemp s : Py.rstrip (Py.rstrip s) = Py.rstrip s.
Proof.
  induction s as [|c s IH]; simpl; [done|].
  destruct (Py.rstrip s) as [|d r] eqn:Hr.
  - destruct (Py.isspace c) eqn:Hc; simpl; [done|]. by rewrite Hc.
  - change (Py.rstrip (String c (String d r)))
      with (match Py.rstrip (String d r) with
            | EmptyString =>
                if Py.isspace c then EmptyString else String c EmptyString
            | String a r' => String c (String a r')
            end).
    by rewrite IH.
Qed.

Lemma rstrip_lstrip_fixed s :
  Py.rstrip s = s → Py.rstrip (Py.lstrip s) = Py.lstrip s.
Proof.
  induction s as [|c s IH]; simpl; [done|].
  intros Hfix. destruct (Py.isspace c) eqn:Hc.
  - apply IH. destruct (Py.rstrip s) as [|d r]; [done|]. congruence.
  - simpl. rewrite Hc. exact Hfix.
Qed.

Lemma strip_idemp s : Py.strip (Py.strip s) = Py.strip s.
Proof.
  unfold Py.strip.
  rewrite (rstrip_lstrip_fixed (Py.rstrip s)) by apply rstrip_idemp.
  apply lstrip_idemp.
Qed.

(** The vocabulary path (lines 21-22) does clean its tokens. *)
Lemma all_skills_clean (df : DataFrame) (s : string) :
  s ∈ all_skills df → Spec.clean s ∧ s ≠ EmptyString.
Proof.
  unfold all_skills. rewrite merge_sort_Permutation.
  intros (t & -> & Ht)%list_elem_of_fmap.
  apply list_elem_of_filter in Ht as [Hne Ht].
  apply elem_of_elements, elem_of_list_to_set in Ht.
  split; [|done]. split; [apply strip_idemp|].
  intros Hq. apply chars_strip, (chars_split _ _ _ Ht) in Hq.
  by apply chars_remove_char in Hq.
Qed.

(** A selection made in the skills widget holds no blank entry. *)
Lemma selection_never_blank (df : DataFrame) (selection : list string) :
  selection ⊆ all_skills df → EmptyString ∉ selection.
Proof. intros Hsub Hin. by apply Hsub, all_skills_clean in Hin as [_ ?]. Qed.

End token_facts.

(** C8 fails on the scoring path.  The vocabulary drops the quote
    characters (line 21), the scoring loop and the missing-skills list
    (lines 97, 102, 142) do not: a user who selects the whole vocabulary
    of a one-row catalog still misses that row's quoted skill. *)
Theorem scoring_tokens_keep_quotes :
  let df := load_data [quoted_job] in
  let u := {| selected_skills := all_skills df; selected_interests := ["Data"];
              math_score := 60; code_score := 60;
              personality := "Introvert" |} in
  all_skills df = ["Python"; "SQL"]
  ∧ job_skills quoted_job = [quoted "Python"; "SQL"]
  ∧ ¬ Spec.clean (quoted "Python")
  ∧ missing u quoted_job = [quoted "Python"]
  ∧ final_score u quoted_job = Some (Qc_of_Z 70).
Proof.
  intros df u. split; [by vm_compute|]. split; [by vm_compute|].
  split; [|split].
  - intros [_ Hq]. apply Hq. vm_compute. left.
  - by vm_compute.
  - rewrite final_score_spec. f_equal. apply Qc_is_canon. by vm_compute.
Qed.

(** * Further properties of the code *)

(** ** The vocabulary *)

Section vocabulary.
Implicit Types (s t : string) (c sep : ascii) (l : list string).

Lemma split_app_sep sep s t :
  Py.split sep (s +:+ String sep t) = Py.split sep s ++ Py.split sep t.
Proof.
  induction s as [|c s IH].
  - change (EmptyString +:+ String sep t) with (String sep t).
    simpl. by rewrite Ascii.eqb_refl.
  - rewrite append_cons. simpl. rewrite IH.
    destruct (Ascii.eqb c sep); [done|].
    pose proof (split_not_nil sep s) as Hne.
    by destruct (Py.split sep s).
Qed.

Lemma split_join l :
  l ≠ [] →
  Py.split comma (Py.join "," l) = mjoin (Py.split comma <$> l).
Proof.
  induction l as [|x l IH]; [done|]. intros _.
  destruct l as [|y l].
  - simpl. by rewrite app_nil_r.
  - change (Py.join "," (x :: y :: l))
      with (x +:+ String comma (Py.join "," (y :: l))).
    rewrite split_app_sep, IH by done. done.
Qed.

Lemma split_remove_char c sep s :
  c ≠ sep →
  Py.split sep (Py.remove_char c s) = Py.remove_char c <$> Py.split sep s.
Proof.
  intros Hne. induction s as [|d s IH]; [done|]. simpl.
  destruct (Ascii.eqb d c) eqn:Hdc.
  - apply Ascii.eqb_eq in Hdc as ->.
    destruct (Ascii.eqb c sep) eqn:Hcs; [by apply Ascii.eqb_eq in Hcs|].
    rewrite IH. pose proof (split_not_nil sep s) as Hs.
    destruct (Py.split sep s) as [|t ts]; [done|].
    simpl. by rewrite Ascii.eqb_refl.
  - simpl. destruct (Ascii.eqb d sep); [by rewrite IH|].
    rewrite IH. pose proof (split_not_nil sep s) as Hs.
    destruct (Py.split sep s) as [|t ts]; [done|].
    simpl. by rewrite Hdc.
Qed.

Lemma raw_skill_set_spec (df : DataFrame) t :
  rows df ≠ [] →
  t ∈ raw_skill_set df
  ↔ ∃ row piece, row ∈ rows df ∧ piece ∈ Py.split comma (Skills row)
                 ∧ t = Py.remove_char dquote piece.
Proof.
  intros Hrows. unfold raw_skill_set.
  rewrite elem_of_list_to_set, split_remove_char by done.
  rewrite split_join by (by destruct (rows df)).
  rewrite list_elem_of_fmap. split.
  - intros (piece & -> & Hpiece).
    apply list_elem_of_join in Hpiece as (pieces & Hpiece & Hpieces).
    apply list_elem_of_fmap in Hpieces as (field & -> & Hfield).
    apply list_elem_of_fmap in Hfield as (row & -> & Hrow).
    by exists row, piece.
  - intros (row & piece & Hrow & Hpiece & ->).
    exists piece. split; [done|].
    apply list_elem_of_join. exists (Py.split comma (Skills row)).
    split; [done|]. by apply list_elem_of_fmap_2, list_elem_of_fmap_2.
Qed.

End vocabulary.

Lemma elem_of_all_skills (df : DataFrame) (s : string) :
  s ∈ all_skills df
  ↔ s ≠ EmptyString
    ∧ ∃ row piece, row ∈ rows df ∧ piece ∈ Py.split comma (Skills row)
                   ∧ s = Py.strip (Py.remove_char dquote piece).
Proof.
  unfold all_skills. rewrite merge_sort_Permutation, list_elem_of_fmap.
  setoid_rewrite list_elem_of_filter. setoid_rewrite elem_of_elements.
  destruct (decide (rows df = [])) as [Hnil|Hrows].
  - split.
    + intros (t & -> & Hne & Ht). exfalso. apply Hne.
      unfold raw_skill_set in Ht. rewrite Hnil in Ht.
      apply elem_of_list_to_set in Ht. simpl in Ht.
      by apply list_elem_of_singleton in Ht as ->.
    + intros (_ & row & _ & Hrow & _). rewrite Hnil in Hrow.
      by apply elem_of_nil in Hrow.
  - setoid_rewrite (raw_skill_set_spec df _ Hrows). split.
    + intros (t & -> & Hne & row & piece & Hrow & Hpiece & ->).
      split; [done|]. by exists row, piece.
    + intros (Hne & row & piece & Hrow & Hpiece & ->).
      exists (Py.remove_char dquote piece). split; [done|].
      split; [done|]. by exists row, piece.
Qed.

(** X1. The vocabulary holds exactly the non-blank catalog tokens: a
    string is offered in the skills widget if and only if it is not empty
    and is some comma-separated piece of some row's [Skills] cell with its
    quote characters removed and its surrounding whitespace stripped. *)
Theorem all_skills_exactly_catalog_tokens (df : DataFrame) (s : string) :
  s ∈ all_skills df
  ↔ s ≠ EmptyString
    ∧ ∃ row piece, row ∈ rows df ∧ piece ∈ Py.split comma (Skills row)
                   ∧ s = Py.strip (Py.remove_char dquote piece).
Proof. apply elem_of_all_skills. Qed.

(** X2. The vocabulary is in ascending order, and each of its entries is
    non-empty, free of quote characters and free of surrounding
    whitespace. *)
Theorem all_skills_sorted_clean (df : DataFrame) :
  Sorted String.le (all_skills df)
  ∧ ∀ s, s ∈ all_skills df → Spec.clean s ∧ s ≠ EmptyString.
Proof.
  split; [|intros s; apply all_skills_clean].
  unfold all_skills. apply (Sorted_merge_sort String.le).
Qed.

(** X3. The vocabulary lists an entry twice exactly when two different
    raw tokens of the catalog differ only in their surrounding
    whitespace: the set of line 21 is built before the tokens are
    stripped, so stripping can bring duplicates back. *)
Theorem all_skills_NoDup_iff (df : DataFrame) :
  NoDup (all_skills df)
  ↔ ∀ t1 t2, t1 ∈ raw_skill_set df → t2 ∈ raw_skill_set df →
             Py.strip t1 ≠ EmptyString →
             Py.strip t1 = Py.strip t2 → t1 = t2.
Proof.
  unfold all_skills. rewrite merge_sort_Permutation.
  set (kept := filter (λ s, Py.strip s ≠ EmptyString)
                      (elements (raw_skill_set df))).
  assert (NoDup kept) as Hkept by apply NoDup_filter, NoDup_elements.
  assert (∀ t, t ∈ kept ↔ Py.strip t ≠ EmptyString ∧ t ∈ raw_skill_set df)
    as Hin.
  { intros t. unfold kept. by rewrite list_elem_of_filter, elem_of_elements. }
  split.
  - intros Hnodup t1 t2 Ht1 Ht2 Hne Heq.
    assert (t1 ∈ kept) as H1 by by apply Hin.
    assert (t2 ∈ kept) as H2 by (apply Hin; split; [congruence | done]).
    apply list_elem_of_lookup in H1 as [i Hi].
    apply list_elem_of_lookup in H2 as [j Hj].
    assert (i = j) as ->.
    { eapply NoDup_lookup; [exact Hnodup | |].
      - rewrite list_lookup_fmap, Hi. reflexivity.
      - rewrite list_lookup_fmap, Hj. simpl. by rewrite Heq. }
    congruence.
  - intros Hinj. apply NoDup_fmap_2_strong; [|done].
    intros t1 t2 [Hne1 Ht1]%Hin [Hne2 Ht2]%Hin Heq. by apply Hinj.
Qed.

(** ** The resume scan *)

Section scan.
Implicit Types (s t sub text page : string) (pages vocabulary : list string).



Lemma lower_app s t : Py.lower (s +:+ t) = Py.lower s +:+ Py.lower t.
Proof.
  induction s as [|c s IH]; [done|].
  rewrite append_cons. simpl. rewrite append_cons. by f_equal.
Qed.





Lemma filter_none {A} (P : A → Prop) `{!∀ x, Decision (P x)} (l : list A) :
  (∀ x, x ∈ l → ¬ P x) → filter P l = [].
Proof.
  induction l as [|x l IH]; intros Hnone; [done|].
  rewrite filter_cons, decide_False by (apply Hnone; left).
  apply IH. intros y Hy. apply Hnone. by right.
Qed.

Lemma append_empty_inv s t :
  s +:+ t = EmptyString → s = EmptyString ∧ t = EmptyString.
Proof. destruct s; [done|]. by rewrite append_cons. Qed.

Lemma lower_empty_inv s : Py.lower s = EmptyString → s = EmptyString.
Proof. by destruct s. Qed.

End scan.

(** *** Case folding *)

Section nocase.
Implicit Types (s t term text : string) (c d : ascii).

Global Instance same_char_dec : RelDecision Nocase.same_char.
Proof. intros c d. unfold Nocase.same_char. apply _. Defined.

Lemma elem_of_all_ascii c : c ∈ all_ascii.
Proof.
  unfold all_ascii. apply list_elem_of_fmap.
  exists (nat_of_ascii c). split; [by rewrite ascii_nat_embedding|].
  apply elem_of_seq. pose proof (nat_ascii_bounded c). lia.
Qed.

Lemma lower_char_same_all :
  Forall (λ c, Forall (λ d, Py.lower_char c = Py.lower_char d
                            ↔ Nocase.same_char c d) all_ascii) all_ascii.
Proof. apply (bool_decide_unpack _). by vm_compute. Qed.

Lemma lower_char_same c d :
  Py.lower_char c = Py.lower_char d ↔ Nocase.same_char c d.
Proof.
  pose proof lower_char_same_all as Hall.
  rewrite Forall_forall in Hall. specialize (Hall c (elem_of_all_ascii c)).
  rewrite Forall_forall in Hall. apply Hall, elem_of_all_ascii.
Qed.

Lemma lower_same_text s t :
  Py.lower s = Py.lower t ↔ Nocase.same_text s t.
Proof.
  revert t. induction s as [|c s IH]; intros [|d t]; simpl; try done.
  rewrite <-IH, <-lower_char_same. split.
  - intros [= Hc Hs]. done.
  - intros [-> ->]. done.
Qed.

Lemma lower_app_inv s a b :
  Py.lower s = a +:+ b →
  ∃ s1 s2, s = s1 +:+ s2 ∧ Py.lower s1 = a ∧ Py.lower s2 = b.
Proof.
  revert s. induction a as [|c a IH]; intros s Hs.
  - by exists EmptyString, s.
  - rewrite append_cons in Hs. destruct s as [|d s]; [done|].
    simpl in Hs. injection Hs as Hd Hs.
    destruct (IH s Hs) as (s1 & s2 & -> & H1 & H2).
    exists (String d s1), s2. rewrite append_cons. simpl. by rewrite Hd, H1.
Qed.

Lemma contains_lower_nocase term text :
  Py.contains (Py.lower term) (Py.lower text) = true
  ↔ Nocase.occurs term text.
Proof.
  rewrite contains_spec. unfold Spec.occurs_in, Nocase.occurs. split.
  - intros (a & b & Htext).
    apply lower_app_inv in Htext as (pre & rest & -> & _ & Hrest).
    apply lower_app_inv in Hrest as (mid & post & -> & Hmid & _).
    exists pre, mid, post. split; [done|]. by apply lower_same_text.
  - intros (pre & mid & post & -> & Hsame%lower_same_text).
    exists (Py.lower pre), (Py.lower post).
    by rewrite !lower_app, Hsame.
Qed.

End nocase.

(** C9. [matchSkills] lower-cases the text once and returns, in
    vocabulary order, exactly the vocabulary terms whose lower-cased form
    occurs inside the lower-cased text, that is, the terms that occur in
    the text up to the case of their letters; a term inside an unrelated
    word counts. *)
Theorem matchSkills_filter (text : string) (vocabulary : list string) :
  let text_lower := Py.lower text in
  matchSkills text vocabulary
  = filter (λ term, Py.contains (Py.lower term) text_lower = true) vocabulary
  ∧ (∀ term, Py.contains (Py.lower term) text_lower = true
             ↔ Spec.occurs_in (Py.lower term) text_lower)
  ∧ (∀ term, term ∈ matchSkills text vocabulary
             ↔ term ∈ vocabulary ∧ Nocase.occurs term text)
  ∧ matchSkills "python developer" ["Go"; "Python"; "SQL"] = ["Python"]
  ∧ matchSkills "SENIOR SQL ADMIN" ["Go"; "Python"; "sql"] = ["sql"]
  ∧ matchSkills "Joined Google in 2019" ["Go"; "Rust"] = ["Go"].
Proof.
  intros text_lower.
  assert (matchSkills text vocabulary
          = filter (λ term, Py.contains (Py.lower term) text_lower = true)
                   vocabulary) as Hfilter.
  { unfold matchSkills. by rewrite scan_loop_filter. }
  split; [done|]. split; [intros term; apply contains_spec|].
  split; [|by vm_compute].
  intros term. rewrite Hfilter, list_elem_of_filter.
  unfold text_lower. rewrite contains_lower_nocase. tauto.
Qed.

(** X4. The skills proposed as the default selection form a sub-list of
    the widget's options, in the same (ascending) order, whatever the
    resume contains. *)
Theorem extracted_skills_sublist (df : DataFrame) (pages : list string) :
  extracted_skills df pages `sublist_of` all_skills df
  ∧ Sorted String.le (extracted_skills df pages).
Proof.
  assert (extracted_skills df pages `sublist_of` all_skills df) as Hsub.
  { unfold extracted_skills, matchSkills. rewrite scan_loop_filter.
    apply sublist_filter. }
  split; [done|].
  pose proof (Sorted_merge_sort String.le
    (Py.strip <$> filter (λ s, Py.strip s ≠ EmptyString)
                         (elements (raw_skill_set df)))) as Hsorted.
  fold (all_skills df) in Hsorted.
  apply Sorted_StronglySorted in Hsorted; [|apply _].
  apply StronglySorted_Sorted. revert Hsub Hsorted.
  generalize (all_skills df) (extracted_skills df pages).
  intros l k Hsub. induction Hsub as [|x k l Hsub IH|x k l Hsub IH];
    intros Hl; [constructor|..].
  - apply StronglySorted_inv in Hl as [Hl Hx].
    constructor; [by apply IH|].
    apply Forall_forall. intros y Hy.
    rewrite Forall_forall in Hx. by apply Hx, (sublist_subseteq _ _ Hsub).
  - apply StronglySorted_inv in Hl as [Hl _]. by apply IH.
Qed.



(** X6. A resume whose extracted text is empty yields no default skill:
    no vocabulary entry is blank, so none is found in an empty text. *)
Theorem empty_resume_no_skills (df : DataFrame) (pages : list string) :
  resume_text pages = EmptyString → extracted_skills df pages = [].
Proof.
  intros Htext. unfold extracted_skills, matchSkills.
  rewrite scan_loop_filter, Htext. cbn [app].
  apply filter_none. intros s Hs Hfound.
  apply all_skills_clean in Hs as [_ Hne]. apply Hne.
  apply contains_spec in Hfound as (pre & post & Hfound).
  symmetry in Hfound.
  apply append_empty_inv in Hfound as [_ Hfound].
  apply append_empty_inv in Hfound as [Hfound _].
  by apply lower_empty_inv.
Qed.

Lemma empty_resume_no_skills_witness :
  extracted_skills tie_catalog [EmptyString; EmptyString] = [].
Proof. by apply empty_resume_no_skills. Defined.

(** ** The score as a function of the profile *)

Section score_order.
Implicit Types (a b d : Z) (x y z t : Qc).

Lemma Qc_of_Z_le a b : (a ≤ b)%Z → Qc_of_Z a ≤ Qc_of_Z b.
Proof. intros Hab. unfold Qcle, Qle. simpl. lia. Qed.

Lemma Qc_of_Z_inj a b : Qc_of_Z a = Qc_of_Z b → a = b.
Proof. intros Heq. apply (f_equal this) in Heq. by injection Heq. Qed.

Lemma Qc_of_Z_pos_neq_0 a : (0 < a)%Z → Qc_of_Z a ≠ 0.
Proof. intros Ha Heq. rewrite <-Qc_of_Z_0 in Heq. apply Qc_of_Z_inj in Heq. lia. Qed.

Lemma Qcinv_nonneg x : 0 ≤ x → 0 ≤ / x.
Proof.
  unfold Qcle. simpl. rewrite !Qred_correct. apply Qinv_le_0_compat.
Qed.

Lemma Qcmult_nonneg x y : 0 ≤ x → 0 ≤ y → 0 ≤ x * y.
Proof.
  intros Hx Hy. rewrite <-(Qcmult_0_l y). by apply Qcmult_le_compat_r.
Qed.

Lemma Qcdiv_le_mono x y z : 0 ≤ z → x ≤ y → x / z ≤ y / z.
Proof.
  intros Hz Hxy. unfold Qcdiv.
  by apply Qcmult_le_compat_r, Qcinv_nonneg.
Qed.

Lemma Qcdiv_diag x : x ≠ 0 → x / x = 1.
Proof. intros Hx. unfold Qcdiv. by apply Qcmult_inv_r. Qed.

Lemma clamp_mono t t' lo hi :
  lo ≤ hi → t ≤ t' → Spec.clamp t lo hi ≤ Spec.clamp t' lo hi.
Proof.
  intros Hlh Htt. unfold Spec.clamp.
  repeat case_decide; try done; qc_order.
Qed.

End score_order.

Section skill_match.
Context (u : Profile) (row : CsvRow).

Lemma size_list_to_set_le (l : list string) :
  (size (list_to_set l : gset string) ≤ length l)%nat.
Proof.
  induction l as [|x l IH].
  - by rewrite list_to_set_nil, size_empty.
  - rewrite list_to_set_cons, size_union_alt, size_singleton. cbn [length].
    pose proof (subseteq_size (list_to_set l ∖ {[x]}) (list_to_set l : gset string)
                  ltac:(set_solver)).
    lia.
Qed.

Lemma size_list_to_set_NoDup_inv (l : list string) :
  size (list_to_set l : gset string) = length l → NoDup l.
Proof.
  induction l as [|x l IH]; intros Hsize; [constructor|].
  rewrite list_to_set_cons in Hsize. cbn [length] in Hsize.
  pose proof (size_list_to_set_le l) as Hle.
  destruct (decide (x ∈ l)) as [Hin|Hnotin].
  - exfalso.
    assert ({[x]} ∪ list_to_set l = (list_to_set l : gset string)) as Heq
      by set_solver.
    rewrite Heq in Hsize. lia.
  - constructor; [done|]. apply IH.
    rewrite size_union, size_singleton in Hsize by set_solver. lia.
Qed.

Lemma common_skills_subseteq :
  common_skills u row ⊆ list_to_set (job_skills row).
Proof. unfold common_skills. set_solver. Qed.

Lemma common_skills_size_le :
  (size (common_skills u row) ≤ length (job_skills row))%nat.
Proof.
  etrans; [apply subseteq_size, common_skills_subseteq|].
  apply size_list_to_set_le.
Qed.

Lemma missing_nil_iff :
  missing u row = [] ↔ ∀ s, s ∈ job_skills row → s ∈ selected_skills u.
Proof.
  unfold missing. split.
  - intros Hnil s Hs.
    destruct (decide (s ∈ selected_skills u)) as [|Hnot]; [done|].
    exfalso. eapply filter_nil_not_elem_of; [exact Hnil | | exact Hs].
    cbv beta. by rewrite elem_of_list_to_set.
  - intros Hall. apply filter_none. intros s Hs Hnot.
    apply Hnot, elem_of_list_to_set. by apply Hall.
Qed.

Lemma skillMatchPercent_full_iff :
  Spec.skillMatchPercent u row = Qc_of_Z 100
  ↔ size (common_skills u row) = length (job_skills row).
Proof.
  unfold Spec.skillMatchPercent.
  pose proof (tokens_length_pos (Skills row)) as Hpos.
  fold (job_skills row) in Hpos.
  set (n := Qc_of_Z (Z.of_nat (size (common_skills u row)))).
  set (d := Qc_of_Z (Z.of_nat (length (job_skills row)))).
  assert (d ≠ 0) as Hd by (apply Qc_of_Z_pos_neq_0; lia).
  assert (Qc_of_Z 100 ≠ 0) as Hc by by apply Qc_of_Z_pos_neq_0.
  split.
  - intros Hfull.
    assert (n = n / d * Qc_of_Z 100 * (d / Qc_of_Z 100)) as Hn
      by (field; by split).
    rewrite Hfull in Hn.
    assert (Qc_of_Z 100 * (d / Qc_of_Z 100) = d) as Hd' by (by field).
    rewrite Hd' in Hn. apply Qc_of_Z_inj in Hn. lia.
  - intros Hsize. unfold n, d. rewrite Hsize.
    fold d. rewrite Qcdiv_diag by done. ring.
Qed.

End skill_match.

Lemma skill_match_pct_range (u : Profile) (row : CsvRow) :
  ∃ pct, skill_match_pct u row = Some pct ∧ 0 ≤ pct ≤ Qc_of_Z 100.
Proof.
  exists (Spec.skillMatchPercent u row).
  split; [apply skill_match_pct_spec|].
  unfold Spec.skillMatchPercent.
  pose proof (tokens_length_pos (Skills row)) as Hpos.
  fold (job_skills row) in Hpos.
  pose proof (common_skills_size_le u row) as Hle.
  set (n := size (common_skills u row)) in *.
  set (d := length (job_skills row)) in *.
  assert (0 ≤ Qc_of_Z (Z.of_nat d)) as Hd.
  { rewrite <-Qc_of_Z_0. apply Qc_of_Z_le. lia. }
  split.
  - apply Qcmult_nonneg; [|apply Qc_0_le_100].
    unfold Qcdiv. apply Qcmult_nonneg; [|by apply Qcinv_nonneg].
    rewrite <-Qc_of_Z_0. apply Qc_of_Z_le. lia.
  - trans (Qc_of_Z (Z.of_nat d) / Qc_of_Z (Z.of_nat d) * Qc_of_Z 100).
    + apply Qcmult_le_compat_r; [|apply Qc_0_le_100].
      apply Qcdiv_le_mono; [done|]. apply Qc_of_Z_le. lia.
    + rewrite Qcdiv_diag by (apply Qc_of_Z_pos_neq_0; lia).
      rewrite Qcmult_1_l. reflexivity.
Qed.

(** X7. The skill match percentage of every job lies between 0 and 100. *)
Theorem skill_match_pct_bounds (u : Profile) (row : CsvRow) :
  ∃ pct, skill_match_pct u row = Some pct ∧ 0 ≤ pct ≤ Qc_of_Z 100.
Proof. apply skill_match_pct_range. Qed.

Lemma skill_match_full_spec (u : Profile) (row : CsvRow) :
  skill_match_pct u row = Some (Qc_of_Z 100)
  ↔ shows_core_skills_note u row = true ∧ NoDup (job_skills row).
Proof.
  rewrite skill_match_pct_spec.
  assert (shows_core_skills_note u row = true ↔ missing u row = []) as ->.
  { unfold shows_core_skills_note. by destruct (missing u row). }
  rewrite missing_nil_iff. split.
  - intros Hfull%(inj Some). apply skillMatchPercent_full_iff in Hfull.
    pose proof (size_list_to_set_le (job_skills row)) as Hle.
    pose proof (subseteq_size _ _ (common_skills_subseteq u row)) as Hsub.
    assert (common_skills u row = list_to_set (job_skills row)) as Heq.
    { apply set_subseteq_size_eq; [apply common_skills_subseteq | lia]. }
    split.
    + intros s Hs.
      assert (s ∈ common_skills u row) as Hin
        by (rewrite Heq; by apply elem_of_list_to_set).
      unfold common_skills in Hin.
      by apply elem_of_intersection in Hin as [?%elem_of_list_to_set _].
    + apply size_list_to_set_NoDup_inv. lia.
  - intros [Hall Hnodup]. f_equal. apply skillMatchPercent_full_iff.
    assert (common_skills u row = list_to_set (job_skills row)) as ->.
    { apply set_eq. intros s. unfold common_skills.
      rewrite elem_of_intersection, !elem_of_list_to_set. naive_solver. }
    by apply size_list_to_set.
Qed.

(** X8. A job shows a skill match of 100 exactly when the card shows the
    core-skills note (no skill missing) and the job lists no token twice:
    the divisor counts listed tokens, the intersection counts distinct
    ones, so a row with a repeated token never reaches 100. *)
Theorem skill_match_full_iff (u : Profile) (row : CsvRow) :
  skill_match_pct u row = Some (Qc_of_Z 100)
  ↔ shows_core_skills_note u row = true ∧ NoDup (job_skills row).
Proof. apply skill_match_full_spec. Qed.

Section score_monotone.
Context (u u' : Profile) (row : CsvRow).
Hypothesis Hskills : selected_skills u ⊆ selected_skills u'.
Hypothesis Hinterests : selected_interests u ⊆ selected_interests u'.
Hypothesis Hmath : (math_score u ≤ math_score u')%Z.
Hypothesis Hcode : (code_score u ≤ code_score u')%Z.
Hypothesis Hpersonality : personality u' = personality u.

Lemma Qc_of_Z_nonneg (a : Z) : (0 ≤ a)%Z → 0 ≤ Qc_of_Z a.
Proof. intros Ha. rewrite <-Qc_of_Z_0. by apply Qc_of_Z_le. Qed.

Lemma common_size_mono (sel sel' toks : list string) :
  sel ⊆ sel' →
  (size (list_to_set sel ∩ list_to_set toks : gset string)
   ≤ size (list_to_set sel' ∩ list_to_set toks : gset string))%nat.
Proof.
  intros Hsub. apply subseteq_size. intros s.
  rewrite !elem_of_intersection, !elem_of_list_to_set.
  intros [Hsel Htok]. split; [by apply Hsub | done].
Qed.

Lemma indicator_antitone (P Q : Prop) `{Decision P} `{Decision Q} :
  (Q → P) → Spec.indicator Q ≤ Spec.indicator P.
Proof.
  intros HQP. unfold Spec.indicator.
  repeat case_decide; try done; tauto.
Qed.

Lemma penalty_antitone (P Q : Prop) `{Decision P} `{Decision Q} (t t' : Qc) :
  (Q → P) → t ≤ t' →
  t - Qc_of_Z 10 * Spec.indicator P ≤ t' - Qc_of_Z 10 * Spec.indicator Q.
Proof.
  intros HQP Htt. unfold Qcminus. apply Qcplus_le_compat; [done|].
  apply Qcopp_le_compat, Qcmult_le_mono_nonneg_l.
  - by apply Qc_of_Z_nonneg.
  - by apply indicator_antitone.
Qed.

Lemma score_mono : Spec.score u row ≤ Spec.score u' row.
Proof.
  unfold Spec.score. apply clamp_mono; [apply Qc_0_le_100|].
  apply Qcplus_le_compat.
  - apply penalty_antitone; [lia|]. apply penalty_antitone; [lia|].
    apply Qcplus_le_compat.
    + unfold Spec.skillMatchPercent.
      apply Qcmult_le_compat_r; [|apply Qc_0_le_100].
      apply Qcdiv_le_mono; [apply Qc_of_Z_nonneg; lia|].
      apply Qc_of_Z_le, inj_le. by apply common_size_mono.
    + apply Qcmult_le_mono_nonneg_l; [by apply Qc_of_Z_nonneg|].
      apply Qc_of_Z_le, inj_le. by apply common_size_mono.
  - unfold Spec.personality_bonus_condition. rewrite Hpersonality.
    reflexivity.
Qed.

End score_monotone.

(** X9. A profile that selects at least the same skills and interests,
    has math and code scores at least as high, and the same personality,
    scores at least as high on every job: adding a skill or an interest,
    or raising a slider, never lowers a match. *)
Theorem richer_profile_never_lower (u u' : Profile) (row : CsvRow) :
  selected_skills u ⊆ selected_skills u' →
  selected_interests u ⊆ selected_interests u' →
  (math_score u ≤ math_score u')%Z →
  (code_score u ≤ code_score u')%Z →
  personality u' = personality u →
  ∃ s s', final_score u row = Some s ∧ final_score u' row = Some s' ∧ s ≤ s'.
Proof.
  intros Hskills Hinterests Hmath Hcode Hpers.
  exists (Spec.score u row), (Spec.score u' row).
  split; [apply final_score_spec|]. split; [apply final_score_spec|].
  by apply score_mono.
Qed.

Lemma richer_profile_never_lower_witness :
  ∃ s s',
    final_score example_user job_A = Some s
    ∧ final_score
        (set_scores 80 90
           (select_more_interests ["AI"]
              (select_more_skills ["SQL"] example_user))) job_A = Some s'
    ∧ s ≤ s'.
Proof.
  apply richer_profile_never_lower.
  - intros x ->%list_elem_of_singleton. simpl. by left.
  - intros x ->%list_elem_of_singleton. simpl. by left.
  - simpl. lia.
  - simpl. lia.
  - reflexivity.
Defined.

(** ** The returned rows *)

Section ranking_facts.
Context (sort : list ScoredRow → list ScoredRow).
Hypothesis Hsort : sort_contract sort.

Global Instance score_ge_transitive : Transitive score_ge.
Proof. intros a b c Hab Hbc. unfold score_ge in *. by etrans. Qed.

Lemma elem_of_scored_rows (df : DataFrame) (u : Profile) (a : ScoredRow) :
  a ∈ scored_rows df (Spec.score u <$> rows df) →
  a.1 ∈ rows df ∧ final_score u a.1 = Some a.2.
Proof.
  unfold scored_rows. induction (rows df) as [|row l IH]; simpl.
  - by intros ?%elem_of_nil.
  - intros [->|Ha]%elem_of_cons.
    + split; [by left | apply final_score_spec].
    + destruct (IH Ha). split; [by right | done].
Qed.

Lemma sorted_rows_strongly (l : list ScoredRow) :
  StronglySorted score_ge (sort l).
Proof. apply Sorted_StronglySorted; [apply _ | apply Hsort]. Qed.

Lemma strongly_sorted_lookup {A} (R : relation A) (l : list A) i j a b :
  StronglySorted R l → l !! i = Some a → l !! j = Some b → (i < j)%nat →
  R a b.
Proof.
  intros Hl. revert i j. induction Hl as [|x l Hl IH Hx]; intros i j.
  - by rewrite lookup_nil.
  - destruct i as [|i], j as [|j]; simpl; try lia.
    + intros [= ->] Hb _. rewrite Forall_forall in Hx.
      by eapply Hx, list_elem_of_lookup_2.
    + intros Ha Hb Hij. apply (IH i j); [done..|lia].
Qed.

End ranking_facts.

(** X10. The rows returned are catalog rows carrying their own score, and
    no row left out scores higher than a row returned. *)
Theorem top_jobs_are_best (sort : list ScoredRow → list ScoredRow)
    (df : DataFrame) (u : Profile) :
  sort_contract sort →
  selected_skills u ≠ [] →
  ∃ df' top_jobs left_out,
    analyze sort df u = Some (df', st_success top_jobs)
    ∧ top_jobs ++ left_out ≡ₚ scored_rows df (Spec.score u <$> rows df)
    ∧ (∀ a, a ∈ top_jobs → a.1 ∈ rows df ∧ final_score u a.1 = Some a.2)
    ∧ (∀ a b, a ∈ top_jobs → b ∈ left_out → b.2 ≤ a.2).
Proof.
  intros Hsort Hsel.
  set (scored := scored_rows df (Spec.score u <$> rows df)).
  exists (set_Final_Score df (Spec.score u <$> rows df)),
    (take 3 (sort scored)), (drop 3 (sort scored)).
  split; [by apply analyze_nonempty_selection|].
  rewrite take_drop. destruct (Hsort scored) as [Hperm _].
  split; [done|]. split.
  - intros a Ha. apply elem_of_scored_rows.
    fold scored. rewrite <-Hperm.
    apply elem_of_take in Ha as (i & Hi & _).
    by eapply list_elem_of_lookup_2.
  - intros a b Ha Hb.
    pose proof (sorted_rows_strongly sort Hsort scored) as Hsorted.
    rewrite <-(take_drop 3 (sort scored)) in Hsorted.
    by apply (StronglySorted_app_1_elem_of _ _ _ _ _ Hsorted).
Qed.

Lemma top_jobs_are_best_witness :
  ∃ df' top_jobs left_out,
    analyze sort_stable tie_catalog example_user
      = Some (df', st_success top_jobs)
    ∧ top_jobs ++ left_out
        ≡ₚ scored_rows tie_catalog
             (Spec.score example_user <$> rows tie_catalog)
    ∧ (∀ a, a ∈ top_jobs →
            a.1 ∈ rows tie_catalog ∧ final_score example_user a.1 = Some a.2)
    ∧ (∀ a b, a ∈ top_jobs → b ∈ left_out → b.2 ≤ a.2).
Proof.
  apply (top_jobs_are_best sort_stable tie_catalog example_user).
  - apply sort_desc_contract.
  - simpl. discriminate.
Defined.

(** X11. What a run shows does not depend on the runs before it: after
    any sequence of earlier runs, by any users, a press of the button
    shows exactly what it shows on the catalog as loaded. *)
Theorem run_ignores_history (sort : list ScoredRow → list ScoredRow)
    (csv : list CsvRow) (earlier : list (Profile * bool)) (u : Profile) :
  ∃ s s' df,
    script_runs sort csv earlier start = Some s
    ∧ script_run sort csv u true s
      = Some (s', df, snd <$> analyze sort (load_data csv) u).
Proof.
  destruct (script_runs_spec sort csv earlier start (start_intact csv))
    as (s & Hruns & Hintact).
  destruct (script_run_spec sort csv u true s Hintact)
    as (s' & df & c & Hrun & _).
  by exists s, s', df.
Qed.

(** ** The result cards *)

Section cards.
Implicit Types (s t : Qc).

Lemma color_mono s t :
  s ≤ t →
  (color s = "green" → color t = "green")
  ∧ (color t = "red" → color s = "red").
Proof.
  intros Hst. unfold color.
  repeat case_decide; split; try done; intros _; qc_order.
Qed.

Lemma Qc_nonneg_num s : 0 ≤ s → (0 ≤ Qnum s)%Z.
Proof.
  unfold Qcle, Qle. change (this 0) with 0%Q. simpl. lia.
Qed.

Lemma Qc_le_100_num s : s ≤ Qc_of_Z 100 → (Qnum s ≤ 100 * Zpos (Qden s))%Z.
Proof. unfold Qcle, Qle. simpl. lia. Qed.

Lemma progress_value_bounds s :
  0 ≤ s ≤ Qc_of_Z 100 →
  (0 ≤ progress_value s ≤ 100)%Z ∧ progress_value s = py_int s.
Proof.
  intros [Hlo%Qc_nonneg_num Hhi%Qc_le_100_num].
  unfold progress_value, py_min_int, py_int.
  rewrite Z.quot_div_nonneg by lia.
  assert (0 ≤ Qnum s `div` Z.pos (Qden s) ≤ 100)%Z as Hdiv.
  { split; [apply Z.div_pos; lia|].
    apply Z.div_le_upper_bound; lia. }
  case_decide; [lia|]. split; lia.
Qed.

Lemma py_int_floor s :
  0 ≤ s → Qc_of_Z (py_int s) ≤ s ∧ s < Qc_of_Z (py_int s + 1).
Proof.
  intros Hlo%Qc_nonneg_num. unfold py_int, Qcle, Qclt, Qle, Qlt.
  destruct s as [[n d] Hcanon]. cbn [this Qc_of_Z inject_Z Qnum Qden] in *.
  rewrite Z.quot_div_nonneg by lia.
  pose proof (Z.div_mod n (Zpos d) ltac:(lia)) as Hdm.
  pose proof (Z.mod_pos_bound n (Zpos d) ltac:(lia)) as Hmod.
  nia.
Qed.

End cards.

(** X13. Along the returned ranking the colours never improve: once a
    card is not green no later card is green, and every card after a red
    one is red. *)
Theorem colors_follow_ranking (sort : list ScoredRow → list ScoredRow)
    (df : DataFrame) (u : Profile) :
  sort_contract sort →
  selected_skills u ≠ [] →
  ∃ df' top_jobs,
    analyze sort df u = Some (df', st_success top_jobs)
    ∧ ∀ i j a b,
        top_jobs !! i = Some a → top_jobs !! j = Some b → (i < j)%nat →
        (color b.2 = "green" → color a.2 = "green")
        ∧ (color a.2 = "red" → color b.2 = "red").
Proof.
  intros Hsort Hsel.
  set (scored := scored_rows df (Spec.score u <$> rows df)).
  exists (set_Final_Score df (Spec.score u <$> rows df)), (take 3 (sort scored)).
  split; [by apply analyze_nonempty_selection|].
  intros i j a b Ha Hb Hij. apply color_mono.
  pose proof (sorted_rows_strongly sort Hsort scored) as Hsorted.
  apply lookup_take_Some in Ha as [Ha _].
  apply lookup_take_Some in Hb as [Hb _].
  apply (strongly_sorted_lookup score_ge _ i j a b Hsorted Ha Hb Hij).
Qed.

Lemma colors_follow_ranking_witness :
  ∃ df' top_jobs,
    analyze sort_stable tie_catalog example_user
      = Some (df', st_success top_jobs)
    ∧ ∀ i j a b,
        top_jobs !! i = Some a → top_jobs !! j = Some b → (i < j)%nat →
        (color b.2 = "green" → color a.2 = "green")
        ∧ (color a.2 = "red" → color b.2 = "red").
Proof.
  apply (colors_follow_ranking sort_stable tie_catalog example_user).
  - apply sort_desc_contract.
  - simpl. discriminate.
Defined.

(** X14. The value handed to the progress bar for a scored job is a whole
    number between 0 and 100, namely the score with its fraction cut off;
    the cap at 100 in line 137 never takes effect. *)
Theorem progress_value_in_range (u : Profile) (row : CsvRow) :
  ∃ s, final_score u row = Some s
       ∧ (0 ≤ progress_value s ≤ 100)%Z
       ∧ progress_value s = py_int s
       ∧ Qc_of_Z (progress_value s) ≤ s
       ∧ s < Qc_of_Z (progress_value s + 1).
Proof.
  exists (Spec.score u row). split; [apply final_score_spec|].
  assert (0 ≤ Spec.score u row ≤ Qc_of_Z 100) as Hbounds
    by apply clamp_bounds, Qc_0_le_100.
  destruct (progress_value_bounds _ Hbounds) as [Hrange Hint].
  split; [done|]. split; [done|]. rewrite Hint.
  apply py_int_floor, Hbounds.
Qed.

(** ** The demand chart *)

Lemma base_growth_values (row : CsvRow) :
  base_growth row = 5%Z ∨ base_growth row = 10%Z ∨ base_growth row = 15%Z.
Proof.
  unfold base_growth.
  destruct (String.eqb _ "Stable"); [by left|].
  destruct (String.eqb _ "High"); [right; by left | right; by right].
Qed.

Lemma growth_lookup (row : CsvRow) (randint : nat → Z) (i : nat) (g : Z) :
  growth row randint !! i = Some g
  ↔ (i < 5)%nat ∧ g = (100 + base_growth row * Z.of_nat i + randint i)%Z.
Proof.
  unfold growth. rewrite list_lookup_fmap_Some.
  setoid_rewrite lookup_seq. naive_solver.
Qed.

(** X15. Whatever the random jitter (each draw lies in -2 .. 1), the
    chart shows five values per job, the first between 98 and 101, and
    each year's value is strictly above the year before. *)
Theorem growth_strictly_increasing (row : CsvRow) (randint : nat → Z) :
  (∀ i, (-2 ≤ randint i < 2)%Z) →
  length (growth row randint) = 5%nat
  ∧ (∀ g, growth row randint !! 0%nat = Some g → (98 ≤ g ≤ 101)%Z)
  ∧ (∀ i j g h,
       growth row randint !! i = Some g → growth row randint !! j = Some h →
       (i < j)%nat → (g < h)%Z).
Proof.
  intros Hdraw. split; [done|]. split.
  - intros g [_ ->]%growth_lookup. specialize (Hdraw 0%nat). lia.
  - intros i j g h [_ ->]%growth_lookup [_ ->]%growth_lookup Hij.
    pose proof (Hdraw i). pose proof (Hdraw j).
    destruct (base_growth_values row) as [-> | [-> | ->]]; lia.
Qed.

Lemma growth_strictly_increasing_witness :
  length (growth job_A (λ i, if Nat.even i then (-2)%Z else 1%Z)) = 5%nat
  ∧ (∀ g, growth job_A (λ i, if Nat.even i then (-2)%Z else 1%Z) !! 0%nat
          = Some g → (98 ≤ g ≤ 101)%Z)
  ∧ (∀ i j g h,
       growth job_A (λ i, if Nat.even i then (-2)%Z else 1%Z) !! i = Some g →
       growth job_A (λ i, if Nat.even i then (-2)%Z else 1%Z) !! j = Some h →
       (i < j)%nat → (g < h)%Z).
Proof.
  apply growth_strictly_increasing.
  intros i. destruct (Nat.even i); lia.
Defined.

(** ** Scoring tokens and the vocabulary *)

Section scoring_tokens.
Implicit Types (s t field : string) (c sep : ascii).

Local Abbreviation chars := String.list_ascii_of_string.

Lemma chars_split_no_sep sep s t : t ∈ Py.split sep s → sep ∉ chars t.
Proof.
  revert t. induction s as [|d s IH]; intros t; simpl.
  - intros ->%list_elem_of_singleton. apply not_elem_of_nil.
  - destruct (Ascii.eqb d sep) eqn:Hd.
    + intros [->|Ht]%elem_of_cons; [apply not_elem_of_nil | by apply IH].
    + assert (sep ≠ d) as Hne.
      { intros ->. by rewrite Ascii.eqb_refl in Hd. }
      destruct (Py.split sep s) as [|t0 ts].
      * intros ->%list_elem_of_singleton. simpl.
        apply not_elem_of_cons. split; [done | apply not_elem_of_nil].
      * intros [->|Ht]%elem_of_cons; simpl.
        -- apply not_elem_of_cons. split; [done|]. apply IH. by left.
        -- apply IH. by right.
Qed.

Lemma remove_char_absent c s : c ∉ chars s → Py.remove_char c s = s.
Proof.
  induction s as [|d s IH]; simpl; [done|].
  intros [Hne Hs]%not_elem_of_cons.
  destruct (Ascii.eqb d c) eqn:Hd.
  - apply Ascii.eqb_eq in Hd. congruence.
  - by rewrite IH.
Qed.

End scoring_tokens.

(** X16. Every token the scoring loop works with, skill or interest, is
    free of surrounding whitespace and contains no comma. *)
Theorem tokens_trimmed (field s : string) :
  s ∈ tokens field →
  Py.strip s = s ∧ comma ∉ String.list_ascii_of_string s.
Proof.
  unfold tokens. intros (t & -> & Ht)%list_elem_of_fmap.
  split; [apply strip_idemp|].
  intros Hin%chars_strip. by apply (chars_split_no_sep _ _ _ Ht).
Qed.

Lemma tokens_trimmed_witness :
  Py.strip "SQL" = "SQL" ∧ comma ∉ String.list_ascii_of_string "SQL".
Proof.
  apply (tokens_trimmed " Python , SQL ").
  vm_compute. apply elem_of_cons. right. apply elem_of_cons. by left.
Defined.

(** X17. For a catalog without quote characters in its [Skills] cells
    the two token paths agree: the vocabulary is exactly the set of
    non-blank tokens that the scoring loop sees in some row. *)
Theorem vocabulary_is_scoring_tokens (df : DataFrame) (s : string) :
  (∀ row, row ∈ rows df → dquote ∉ String.list_ascii_of_string (Skills row)) →
  s ∈ all_skills df
  ↔ s ≠ EmptyString ∧ ∃ row, row ∈ rows df ∧ s ∈ job_skills row.
Proof.
  intros Hclean. rewrite elem_of_all_skills.
  unfold job_skills, tokens. setoid_rewrite list_elem_of_fmap.
  split.
  - intros (Hne & row & piece & Hrow & Hpiece & ->).
    split; [done|]. exists row. split; [done|]. exists piece.
    split; [|done]. f_equal. apply remove_char_absent.
    intros Hq. by apply (chars_split _ _ _ Hpiece), Hclean in Hq.
  - intros (Hne & row & Hrow & piece & -> & Hpiece).
    split; [done|]. exists row, piece. split; [done|]. split; [done|].
    f_equal. symmetry. apply remove_char_absent.
    intros Hq. by apply (chars_split _ _ _ Hpiece), Hclean in Hq.
Qed.

Lemma vocabulary_is_scoring_tokens_witness :
  "SQL" ∈ all_skills tie_catalog
  ↔ "SQL" ≠ EmptyString ∧ ∃ row, row ∈ rows tie_catalog ∧ "SQL" ∈ job_skills row.
Proof.
  apply vocabulary_is_scoring_tokens.
  intros row Hrow. simpl in Hrow.
  apply elem_of_cons in Hrow as [->|Hrow].
  { vm_compute. intros Hq. repeat (apply elem_of_cons in Hq as [Hq|Hq]; [done|]).
    by apply elem_of_nil in Hq. }
  apply list_elem_of_singleton in Hrow as ->.
  vm_compute. intros Hq. repeat (apply elem_of_cons in Hq as [Hq|Hq]; [done|]).
  by apply elem_of_nil in Hq.
Defined.

(** X18. A row whose [Skills] cell has a blank token (two commas in a
    row, a leading or a trailing comma) never shows a skill match of 100
    for a selection made in the skills widget: the blank token counts in
    the divisor but is not offered for selection. *)
Theorem blank_token_caps_match (df : DataFrame) (u : Profile) (row : CsvRow) :
  selected_skills u ⊆ all_skills df →
  EmptyString ∈ job_skills row →
  ∃ pct, skill_match_pct u row = Some pct ∧ pct < Qc_of_Z 100.
Proof.
  intros Hsel Hblank.
  destruct (skill_match_pct_range u row) as (pct & Hpct & _ & Hle).
  exists pct. split; [done|].
  apply Qcle_lt_or_eq in Hle as [Hlt | ->]; [done|]. exfalso.
  apply skill_match_full_spec in Hpct as [Hnote _].
  unfold shows_core_skills_note in Hnote.
  destruct (missing u row) eqn:Hmissing; [|done].
  pose proof (proj1 (missing_nil_iff u row) Hmissing) as Hall.
  by apply Hall, Hsel, all_skills_clean in Hblank as [_ ?].
Qed.

Lemma blank_token_caps_match_witness :
  ∃ pct, skill_match_pct example_user (example_job "Job T" "Python,") = Some pct
         ∧ pct < Qc_of_Z 100.
Proof.
  apply (blank_token_caps_match
           (load_data [example_job "Job T" "Python,"]) example_user).
  - intros s ->%list_elem_of_singleton. vm_compute. by left.
  - vm_compute. right. by left.
Defined.
